(** * Multimodal chatbot backend: the agentic search loop and its helpers

    A shallow embedding of
      - [backend/workflow/agentic_search.py]  (directive extraction, the loop),
      - [backend/utils/search.py]             (cache, provider, fetcher, summarizer),
      - [backend/model/model_client.py]       (the streaming model client),
      - [backend/main.py]                     (the task registry and [/stop]),
    followed by the properties of these functions.

    Python [str] values are sequences of Unicode code points; they are
    modelled as [list N], so that slicing, [rfind], [startswith] and
    [strip] count and classify code points exactly as Python does. *)

From Stdlib Require Import ZArith NArith List Ascii String Lia Permutation.
From stdpp Require Import base option list gmap.

Open Scope Z_scope.

(** ** Python strings *)

Module Py.

Definition str := list N.

(** Source literals are written as UTF-8 byte strings and decoded once. *)
Fixpoint utf8_go (pending : nat) (acc : N) (bs : list N) : str :=
  match bs with
  | [] => []
  | b :: r =>
      match pending with
      | O =>
          if (b <? 128)%N then b :: utf8_go 0 0%N r
          else if (b <? 224)%N then utf8_go 1 (b mod 32)%N r
          else if (b <? 240)%N then utf8_go 2 (b mod 16)%N r
          else utf8_go 3 (b mod 8)%N r
      | S p =>
          let acc' := (acc * 64 + b mod 64)%N in
          match p with
          | O => acc' :: utf8_go 0 0%N r
          | S _ => utf8_go p acc' r
          end
      end
  end.

Definition lit (s : string) : str :=
  utf8_go 0 0%N (List.map N_of_ascii (list_ascii_of_string s)).

(** [len(s)] *)
Definition len {A} (l : list A) : Z := Z.of_nat (length l).

(** Slice bounds are clamped the way CPython's [PySlice_AdjustIndices]
    clamps them: a negative bound counts from the end. *)
Definition clamp (n i : Z) : Z :=
  if i <? 0 then Z.max 0 (i + n) else Z.min i n.

(** [l[i:j]] *)
Definition slice {A} (i j : Z) (l : list A) : list A :=
  let lo := clamp (len l) i in
  let hi := clamp (len l) j in
  take (Z.to_nat (hi - lo)) (drop (Z.to_nat lo) l).

(** [l[:k]] *)
Definition slice_to {A} (k : Z) (l : list A) : list A := slice 0 k l.

(** [l[k:]] *)
Definition slice_from {A} (k : Z) (l : list A) : list A := slice k (len l) l.

(** [s.startswith(p)] *)
Fixpoint startswith (s p : str) {struct p} : bool :=
  match p, s with
  | [], _ => true
  | _ :: _, [] => false
  | a :: p', b :: s' => if (a =? b)%N then startswith s' p' else false
  end.

Fixpoint rfind_down (text sub : str) (lo k : nat) : Z :=
  if startswith (drop (lo + k) text) sub then Z.of_nat (lo + k)
  else match k with
       | O => -1
       | S k' => rfind_down text sub lo k'
       end.

(** [text.rfind(sub, start, end)]: the highest index [i] with
    [start <= i], [i + len(sub) <= end] and [text[i:i+len(sub)] == sub],
    or [-1]. *)
Definition rfind (text sub : str) (start end_ : Z) : Z :=
  let lo := clamp (len text) start in
  let hi := clamp (len text) end_ in
  if hi - lo <? len sub then -1
  else rfind_down text sub (Z.to_nat lo) (Z.to_nat (hi - lo - len sub)).

(** [c.isspace()]: the code points CPython's [_PyUnicode_IsWhitespace]
    accepts. *)
Definition isspace (c : N) : bool :=
  ((9 <=? c) && (c <=? 13) || (28 <=? c) && (c <=? 32) ||
   (c =? 133) || (c =? 160) || (c =? 5760) ||
   (8192 <=? c) && (c <=? 8202) || (c =? 8232) || (c =? 8233) ||
   (c =? 8239) || (c =? 8287) || (c =? 12288))%N.

Fixpoint lstrip (s : str) : str :=
  match s with
  | [] => []
  | c :: r => if isspace c then lstrip r else s
  end.

Definition rstrip (s : str) : str := rev (lstrip (rev s)).

(** [s.strip()] *)
Definition strip (s : str) : str := lstrip (rstrip s).

(** [sep.join(parts)] *)
Fixpoint join (sep : str) (parts : list str) : str :=
  match parts with
  | [] => []
  | [p] => p
  | p :: rest => p ++ sep ++ join sep rest
  end.

(** [str(n)] for a non-negative integer. *)
Fixpoint uint_codes (d : Decimal.uint) : str :=
  match d with
  | Decimal.Nil => []
  | Decimal.D0 r => 48%N :: uint_codes r
  | Decimal.D1 r => 49%N :: uint_codes r
  | Decimal.D2 r => 50%N :: uint_codes r
  | Decimal.D3 r => 51%N :: uint_codes r
  | Decimal.D4 r => 52%N :: uint_codes r
  | Decimal.D5 r => 53%N :: uint_codes r
  | Decimal.D6 r => 54%N :: uint_codes r
  | Decimal.D7 r => 55%N :: uint_codes r
  | Decimal.D8 r => 56%N :: uint_codes r
  | Decimal.D9 r => 57%N :: uint_codes r
  end.

Definition str_of_N (n : N) : str := uint_codes (N.to_uint n).

(** Truthiness of a string: [if s:] *)
Definition truthy (s : str) : bool :=
  match s with [] => false | _ :: _ => true end.

End Py.

Import Py.

(** ** [workflow/agentic_search.py]: directive extraction *)

Definition close_tag : str := lit "</search>".
Definition open_tag : str := lit "<search>".

Definition extract_search_query (text : str) : option str :=
  if negb (truthy text) then None
  else
    let close_idx := rfind text close_tag 0 (len text) in
    if close_idx =? -1 then None
    else
      let open_idx := rfind text open_tag 0 close_idx in
      if open_idx =? -1 then None
      else
        let start := open_idx + len open_tag in
        Some (strip (slice start close_idx text)).

(** ** Effects

    The network, the model server and the JSON parser are collaborators.
    They are collected in a [World] of oracles; a call to one of them is
    recorded in the [calls] log of the state.  The state also holds the
    cache file and the events the running generator has yielded so far,
    so that events emitted before an exception stay observable. *)

Definition exn := str.

Inductive result (A : Type) : Type :=
  | Ok (a : A)
  | Raise (e : exn).
Arguments Ok {A} a.
Arguments Raise {A} e.

(** A result dict of [search_and_fetch]: title, url, snippet, content.
    A key that [dict.get(k, "")] would default is the empty string. *)
Record page := Page {
  title : str;
  url : str;
  snippet : str;
  content : str
}.

(** A result dict of [serper_search]. *)
Record hit := Hit {
  hit_title : str;
  hit_url : str;
  hit_snippet : str
}.

(** An entry of the provider's ["organic"] list; every key is optional. *)
Record organic_item := Organic {
  o_title : option str;
  o_link : option str;
  o_snippet : option str
}.

Inductive serper_response :=
  | SerperRaises (e : exn)
  | SerperReply (ok : bool) (organic : list organic_item).

Inductive jina_response :=
  | JinaRaises (e : exn)
  | JinaReply (status_code : N) (text : str).

Inductive vllm_response :=
  | VllmRaises (e : exn)
  | VllmReply (status_code : N) (text : str) (lines : list str).

(** Conversation messages as the workflows build them. *)
Inductive role := User | Assistant.

Inductive part :=
  | TextPart (text : str)
  | ImagePathPart (image_path : str).

Record message := Message {
  msg_role : role;
  msg_content : list part
}.

(** Messages as [prepare_messages] formats them for the server. *)
Inductive vpart :=
  | VText (text : str)
  | VImageUrl (image_url : str).

Record vmessage := VMessage {
  vrole : role;
  vcontent : list vpart
}.

(** The request body of [stream_generate].  The sampling parameters are
    floating-point constants and are left out. *)
Record payload := Payload {
  p_model : str;
  p_messages : list vmessage;
  p_stop : option (list str);
  p_include_stop_str_in_output : bool
}.

Record ModelClient := Client {
  base_url : str;
  model_name : str
}.

Record World := {
  (** [base64.b64encode(open(path, "rb").read()).decode()] *)
  image_b64 : str -> result str;
  (** [mimetypes.guess_type(path)[0]] *)
  guess_type : str -> option str;
  (** [requests.post(base_url, json=payload, stream=True)] *)
  vllm_post : str -> payload -> vllm_response;
  (** [json.loads(data)["choices"][0]["delta"].get("content", "")];
      [None] when any step of it raises. *)
  chunk_delta : str -> option str;
  (** [requests.post("https://google.serper.dev/search", json={"q": q})] *)
  serper_post : str -> serper_response;
  (** [requests.get("https://r.jina.ai/" + url)] *)
  jina_get : str -> jina_response;
  (** [deepseek_client.chat.completions.create(model, messages)] *)
  deepseek_create : str -> str -> result str;
  (** [with open(tmp_path, "wb") as out: out.write(await f.read())] *)
  save_upload : str -> result unit
}.

(** Calls to the collaborators: [client.stream_generate(messages, ...)],
    the search provider, the page extraction service, the summarizer. *)
Inductive call :=
  | CallModel (messages : list message)
  | CallSerper (q : str)
  | CallJina (u : str)
  | CallDeepseek (model prompt : str).

(** What the caller of a workflow receives. *)
Inductive event :=
  | Token (content : str)
  | Status (stage msg : str)
  | Done
  | Error (msg : str).

(** The cache file as [load_cache] finds it: absent; present but
    raising when it is opened or parsed; or holding what [save_cache]
    writes, a JSON object from queries to lists of results.  A file of
    valid JSON of another shape (on which the callers of [load_cache]
    raise) is not a state of this model. *)
Inductive cache_file_t :=
  | FileMissing
  | FileUnreadable
  | FileJson (d : gmap str (list page)).

Record state := State {
  cache_file : cache_file_t;
  calls : list call;
  events : list event
}.

Definition M (A : Type) : Type := state -> result A * state.

Definition ret {A} (a : A) : M A := fun s => (Ok a, s).

Definition bind {A B} (m : M A) (k : A -> M B) : M B :=
  fun s =>
    match m s with
    | (Ok a, s') => k a s'
    | (Raise e, s') => (Raise e, s')
    end.

Definition raise {A} (e : exn) : M A := fun s => (Raise e, s).

Notation "'let*' x ':=' m 'in' k" := (bind m (fun x => k))
  (at level 10, x name, m at level 100, k at level 200).
Notation "'do' m 'then' k" := (bind m (fun _ => k))
  (at level 10, m at level 100, k at level 200).

Definition log (c : call) : M unit :=
  fun s => (Ok tt, State (cache_file s) (calls s ++ [c]) (events s)).

Definition log_all (cs : list call) : M unit :=
  fun s => (Ok tt, State (cache_file s) (calls s ++ cs) (events s)).

(** [yield e] inside a generator. *)
Definition yield (e : event) : M unit :=
  fun s => (Ok tt, State (cache_file s) (calls s) (events s ++ [e])).

Definition lift {A} (r : result A) : M A :=
  match r with
  | Ok a => ret a
  | Raise e => raise e
  end.

(** ** [utils/search.py] *)

Section Search.

Variable W : World.

(** The keys come from the environment; no function below looks at
    their value. *)
Definition SERPER_API_KEY : str := [].
Definition JINA_API_KEY : str := [].

Definition load_cache : M (gmap str (list page)) :=
  fun s =>
    match cache_file s with
    | FileMissing => (Ok ∅, s)
    | FileUnreadable => (Ok ∅, s)
    | FileJson d => (Ok d, s)
    end.

(** The write is modelled where it succeeds: the directory can be made
    and the file written.  The source does not guard it, so a write that
    fails leaves its callers with the exception; such runs are not runs
    of this model. *)
Definition save_cache (cache : gmap str (list page)) : M unit :=
  fun s => (Ok tt, State (FileJson cache) (calls s) (events s)).

Definition get_default (o : option str) : str :=
  match o with
  | Some v => v
  | None => []
  end.

Definition hit_of_organic (item : organic_item) : hit :=
  Hit (get_default (o_title item)) (get_default (o_link item))
      (get_default (o_snippet item)).

(** Every exception raised inside the [try] is caught and turned into
    the empty list. *)
Definition serper_search (query api_key : str) (top_k : Z) : M (list hit) :=
  do log (CallSerper query) then
  match serper_post W query with
  | SerperRaises _ => ret []
  | SerperReply ok organic =>
      if negb ok then ret []
      else
        match organic with
        | [] => ret []
        | _ :: _ => ret (List.map hit_of_organic (slice_to top_k organic))
        end
  end.

(** [re.sub(r"\(https?:.*?\)|\[https?:.*?\]", "", text)].
    [url_head] matches the bracket and [https?:]; [lazy_until] matches
    [.*?] up to the first closing bracket, where [.] is any code point
    but a newline. *)
Definition url_head (opener : N) (s : str) : option str :=
  match s with
  | [] => None
  | c :: r =>
      if (c =? opener)%N then
        if startswith r (lit "https:") then Some (drop 6 r)
        else if startswith r (lit "http:") then Some (drop 5 r)
        else None
      else None
  end.

Fixpoint lazy_until (closer : N) (s : str) : option str :=
  match s with
  | [] => None
  | c :: r =>
      if (c =? closer)%N then Some r
      else if (c =? 10)%N then None
      else lazy_until closer r
  end.

Definition match_url_artifact (s : str) : option str :=
  match url_head 40 s ≫= lazy_until 41 with
  | Some rest => Some rest
  | None => url_head 91 s ≫= lazy_until 93
  end.

Fixpoint sub_url_artifacts (skip : nat) (s : str) : str :=
  match s with
  | [] => []
  | c :: r =>
      match skip with
      | S k => sub_url_artifacts k r
      | O =>
          match match_url_artifact s with
          | Some rest => sub_url_artifacts (length r - length rest) r
          | None => c :: sub_url_artifacts 0 r
          end
      end
  end.

Definition error_marker : str := lit "[Error]".

(** Every path returns a string: the [except] clause covers the whole
    body. *)
Definition fetch_page_content (url jina_api_key : str) : str :=
  match jina_get W url with
  | JinaRaises e => lit "[Error] Failed fetching " ++ url ++ lit ": " ++ e
  | JinaReply status_code text =>
      if (status_code =? 200)%N then strip (sub_url_artifacts 0 text)
      else lit "[Error] Jina error " ++ str_of_N status_code ++ lit ": "
             ++ slice_to 200 text
  end.

(** [future.result()] of a submitted [fetch_page_content]. *)
Definition future_result (url jina_api_key : str) : result str :=
  Ok (fetch_page_content url jina_api_key).

Definition collect (jina_api_key : str) (results : gmap str str) (url : str)
  : gmap str str :=
  match future_result url jina_api_key with
  | Ok text => <[url := text]> results
  | Raise exc => <[url := lit "[Error] " ++ exc]> results
  end.

(** [ThreadPoolExecutor(max_workers=...)] raises [ValueError] for a pool of
    no worker, before anything is submitted. *)
Definition pool_error : exn := lit "max_workers must be greater than 0".

(** The pool submits one fetch per element of [urls]; [completed] is the
    order in which [as_completed] hands the futures back. *)
Definition fetch_multiple_pages_as (urls completed : list str)
    (jina_api_key : str) (max_workers : Z) : M (gmap str str) :=
  if max_workers <=? 0 then raise pool_error
  else
    do log_all (List.map CallJina urls) then
    ret (foldl (collect jina_api_key) ∅ completed).

Definition fetch_multiple_pages (urls : list str) (jina_api_key : str)
    (max_workers : Z) : M (gmap str str) :=
  fetch_multiple_pages_as urls urls jina_api_key max_workers.

Definition combine_result (page_texts : gmap str str) (item : hit) : page :=
  Page (hit_title item) (hit_url item) (hit_snippet item)
       (default [] (page_texts !! hit_url item)).

Definition search_and_fetch (query : str) (top_k : Z) : M (list page) :=
  let* cache := load_cache in
  let hit_cache :=
    match cache !! query with
    | Some cached => len cached >=? top_k
    | None => false
    end in
  if hit_cache then ret (slice_to top_k (default [] (cache !! query)))
  else
    let* search_results := serper_search query SERPER_API_KEY top_k in
    let urls :=
      List.map hit_url (List.filter (fun item => truthy (hit_url item))
                                    search_results) in
    let* page_texts := fetch_multiple_pages urls JINA_API_KEY 5 in
    let output := List.map (combine_result page_texts) search_results in
    do save_cache (<[query := output]> cache) then
    ret output.

Definition no_content_sentinel : str :=
  lit "[Error] No valid page content to summarize.".

Definition summary_instruction : str :=
  lit "你将看到若干来自互联网的网页内容，这些网页是围绕同一主题抓取的。
请基于所有网页内容进行【综合性总结】，要求：
1. 融合所有网页的信息，而不是逐条复述；
2. 去除重复内容，保留关键信息；
3. 保持客观、中立、以事实为主；
4. 用清晰、连贯的自然语言表述。
5. 直接给出总结内容，不要说明过程。

以下是网页内容：

".

Definition page_block (i : N) (item : page) : str :=
  lit "### Page " ++ str_of_N i ++ lit ": " ++ title item ++ [10%N]
    ++ slice_to 10000 (content item).

(** The [for i, item in enumerate(pages, 1)] loop. *)
Fixpoint combined_texts_from (i : N) (pages : list page) : list str :=
  match pages with
  | [] => []
  | item :: rest =>
      if negb (truthy (content item)) || startswith (content item) error_marker
      then combined_texts_from (i + 1)%N rest
      else page_block i item :: combined_texts_from (i + 1)%N rest
  end.

Definition default_summary_model : str := lit "DeepSeek-V3.1-Terminus".

Definition summarize_pages (pages : list page) (model : str) : M str :=
  let combined_texts := combined_texts_from 1 pages in
  match combined_texts with
  | [] => ret no_content_sentinel
  | _ :: _ =>
      let prompt := summary_instruction ++ join [10%N; 10%N] combined_texts in
      do log (CallDeepseek model prompt) then
      lift (deepseek_create W model prompt)
  end.

End Search.

(** ** [utils/search.py]: cache maintenance *)

(** The comprehension of [clean_cache]: the items whose content does
    not start with the failure marker. *)
Definition cleaned_results (results : list page) : list page :=
  List.filter (fun item => negb (startswith (content item) error_marker))
              results.

(** One pass of the [for query, results in list(cache.items())] loop. *)
Definition clean_entry (acc : gmap str (list page) * bool)
    (entry : str * list page) : gmap str (list page) * bool :=
  let cleaned := cleaned_results (snd entry) in
  if negb (length cleaned =? length (snd entry))%nat
  then (<[fst entry := cleaned]> (fst acc), true)
  else acc.

Definition clean_cache : M unit :=
  let* cache := load_cache in
  let '(cache', changed) :=
    foldl clean_entry (cache, false) (map_to_list cache) in
  if changed then save_cache cache' else ret tt.

(** ** [model/model_client.py] *)

Section Client.

Variable W : World.

Definition format_part (c : part) : result vpart :=
  match c with
  | TextPart text => Ok (VText text)
  | ImagePathPart image_path =>
      match image_b64 W image_path with
      | Raise e => Raise e
      | Ok img_b64 =>
          let mime :=
            match guess_type W image_path with
            | Some m => if truthy m then m else lit "image/png"
            | None => lit "image/png"
            end in
          Ok (VImageUrl (lit "data:" ++ mime ++ lit ";base64," ++ img_b64))
      end
  end.

Fixpoint format_parts (cs : list part) : result (list vpart) :=
  match cs with
  | [] => Ok []
  | c :: rest =>
      match format_part c with
      | Raise e => Raise e
      | Ok v =>
          match format_parts rest with
          | Raise e => Raise e
          | Ok vs => Ok (v :: vs)
          end
      end
  end.

Fixpoint prepare_messages (messages : list message) : result (list vmessage) :=
  match messages with
  | [] => Ok []
  | m :: rest =>
      match format_parts (msg_content m) with
      | Raise e => Raise e
      | Ok content =>
          match prepare_messages rest with
          | Raise e => Raise e
          | Ok ms => Ok (VMessage (msg_role m) content :: ms)
          end
      end
  end.

Definition data_prefix : str := lit "data: ".
Definition done_marker : str := lit "[DONE]".

(** The [for line in resp.iter_lines()] loop: the deltas it yields. *)
Fixpoint stream_lines (lines : list str) : list str :=
  match lines with
  | [] => []
  | line :: rest =>
      if negb (truthy line) || negb (startswith line data_prefix)
      then stream_lines rest
      else
        let data := strip (slice_from (len data_prefix) line) in
        if bool_decide (data = done_marker) then []
        else
          match chunk_delta W data with
          | Some delta =>
              if truthy delta then delta :: stream_lines rest
              else stream_lines rest
          | None => stream_lines rest
          end
  end.

(** What a generator did when run to its end: the values it yielded and
    the exception that ended it, if one did. *)
Record generated := Generated {
  yielded : list str;
  raised : option exn
}.

Definition stream_generate (self : ModelClient) (messages : list message)
    (stop : option (list str)) (include_stop_str_in_output : bool)
  : generated :=
  match prepare_messages messages with
  | Raise e => Generated [] (Some e)
  | Ok vllm_messages =>
      let payload :=
        Payload (model_name self) vllm_messages stop
                include_stop_str_in_output in
      match vllm_post W (base_url self) payload with
      | VllmRaises e => Generated [lit "<think>"] (Some e)
      | VllmReply status_code text lines =>
          if negb (status_code =? 200)%N then
            Generated [lit "<think>"]
              (Some (lit "vLLM request failed: " ++ str_of_N status_code
                       ++ lit ", " ++ text))
          else Generated (lit "<think>" :: stream_lines lines) None
      end
  end.

End Client.

(** ** [workflow/agentic_search.py]: the loop *)

Section Agentic.

Variable W : World.

Definition system_instruction : str :=
  lit "你是一个具备自主搜索能力的智能助理。
当你认为需要外部信息时，请用以下格式提出搜索请求：
<search>具体搜索问题</search>

当信息已经足够时，请给出最终答案，不要再输出 <search></search>。

用户问题：".

Definition initial_history (query : str) (image_paths : list str)
  : list message :=
  [ Message User
      ([TextPart (system_instruction ++ query)]
         ++ List.map ImagePathPart image_paths) ].

Definition max_rounds : nat := 20.

(** The inner [for token in client.stream_generate(...)] loop:
    [output += token] and one token event per token. *)
Fixpoint forward_tokens (output : str) (tokens : list str) : M str :=
  match tokens with
  | [] => ret output
  | token :: rest =>
      do yield (Token token) then
      forward_tokens (output ++ token) rest
  end.

Definition generate_round (client : ModelClient) (history : list message)
  : M str :=
  let stop := Some [lit "</search>"] in
  do log (CallModel history) then
  let g := stream_generate W client history stop true in
  let* output := forward_tokens [] (yielded g) in
  match raised g with
  | Some e => raise e
  | None => ret output
  end.

Definition assistant (text : str) : message :=
  Message Assistant [TextPart text].

Definition result_span (summary : str) : str :=
  lit "<search_result>" ++ summary ++ lit "</search_result>".

(** How one pass through the body of [for _ in range(max_rounds)] ends:
    with [return], or at the bottom of the body with the history the
    next pass starts from. *)
Inductive round_end :=
  | Returned (history : list message)
  | Continue (history : list message).

Definition agentic_round (client : ModelClient) (history : list message)
  : M round_end :=
  let* output := generate_round client history in
  let search_query := extract_search_query output in
  if negb (truthy (default [] search_query)) then
    do yield Done then ret (Returned history)
  else
    let search_query := default [] search_query in
    let* pages := search_and_fetch W search_query 5 in
    let* summary := summarize_pages W pages default_summary_model in
    let history := history ++ [assistant output] in
    do yield (Token ([10%N] ++ result_span summary ++ [10%N])) then
    let history := history ++ [assistant (result_span summary)] in
    ret (Continue history).

(** [rounds] passes of the loop body, then the [yield] after the loop.
    The result is the conversation history at the end. *)
Fixpoint agentic_loop (client : ModelClient) (rounds : nat)
    (history : list message) : M (list message) :=
  match rounds with
  | O => do yield Done then ret history
  | S rounds' =>
      let* r := agentic_round client history in
      match r with
      | Returned history' => ret history'
      | Continue history' => agentic_loop client rounds' history'
      end
  end.

Definition stream_agentic_search (client : ModelClient) (query : str)
    (image_paths : list str) : M unit :=
  do agentic_loop client max_rounds (initial_history query image_paths) then
  ret tt.

End Agentic.

(** ** [workflow/direct_reasoning.py] and [workflow/naive_rag.py] *)

Section Workflows.

Variable W : World.

(** [for token in client.stream_generate(messages): yield token event] *)
Fixpoint yield_tokens (tokens : list str) : M unit :=
  match tokens with
  | [] => ret tt
  | token :: rest => do yield (Token token) then yield_tokens rest
  end.

Definition stream_answer (client : ModelClient) (messages : list message)
  : M unit :=
  do log (CallModel messages) then
  let g := stream_generate W client messages None false in
  do yield_tokens (yielded g) then
  match raised g with
  | Some e => raise e
  | None => yield Done
  end.

Definition stream_direct_reasoning (client : ModelClient) (query : str)
    (image_paths : list str) : M unit :=
  let messages :=
    [ Message User
        ([TextPart query] ++ List.map ImagePathPart image_paths) ] in
  stream_answer client messages.

Definition stream_naive_rag (client : ModelClient) (query : str)
    (image_paths : list str) : M unit :=
  do yield (Status (lit "search") (lit "正在搜索相关资料...")) then
  do yield (Token ([10%N] ++ lit "<search>" ++ query ++ lit "</search>"
                     ++ [10%N])) then
  let* pages := search_and_fetch W query 5 in
  let* summary := summarize_pages W pages default_summary_model in
  do yield (Token ([10%N] ++ result_span summary ++ [10%N])) then
  let prompt :=
    lit "请基于这些资料回答问题，要求：
1. 仅依据给定资料作答，不要编造信息；
2. 如果资料中无法得到答案，请明确说明；
3. 回答应简洁、准确、结构清晰。

【参考资料】
" ++ summary ++ lit "

【用户问题】
" ++ query in
  let messages :=
    [ Message User
        ([TextPart prompt] ++ List.map ImagePathPart image_paths) ] in
  stream_answer client messages.

End Workflows.

(** ** [main.py]: the endpoints and the task registry *)

(** [sse()]: an exception of the workflow becomes an error event. *)
Definition sse (stream_fn : M unit) : M unit :=
  fun s =>
    match stream_fn s with
    | (Ok tt, s') => (Ok tt, s')
    | (Raise e, s') => yield (Error e) s'
    end.

(** [active_tasks: dict[str, asyncio.Event]]: a task id and whether its
    event is set.  The module creates it empty. *)
Definition active_tasks_init : gmap str bool := ∅.

Inductive stop_status := Stopping | NotFound.

(** What a request is answered with.  The last two are the framework's
    own answers: 422 to a request whose form lacks a field declared
    [Form(...)], or has it empty, 500 when the handler raises. *)
Inductive response :=
  | JsonError (status_code : N) (error : str)
  | StreamingResponse (body : M unit)
  | StopResponse (status : stop_status) (task_id : str)
  | ValidationError
  | InternalServerError (e : exn).

(** The [for f in files] loop of [infer]: every upload that has a file
    name is written under [/tmp] by that name, in order; an [open] or a
    [write] that raises ends the request. *)
Fixpoint save_uploads (W : World) (files : list str) : result (list str) :=
  match files with
  | [] => Ok []
  | filename :: rest =>
      if negb (truthy filename) then save_uploads W rest
      else
        let tmp_path := lit "/tmp/" ++ filename in
        match save_upload W tmp_path with
        | Raise e => Raise e
        | Ok _ =>
            match save_uploads W rest with
            | Raise e => Raise e
            | Ok image_paths => Ok (tmp_path :: image_paths)
            end
        end
  end.

(** [POST /infer]; [files] are the names of the uploaded files, and a
    form field that is absent arrives here empty.  The body runs only on
    a form that has the three fields. *)
Definition infer (W : World) (clients : gmap str ModelClient)
    (query model mode : str) (files : list str) : response :=
  if negb (truthy query && truthy model && truthy mode) then ValidationError
  else
    match clients !! model with
    | None => JsonError 400 (lit "Unknown model: " ++ model)
    | Some client =>
        match save_uploads W files with
        | Raise e => InternalServerError e
        | Ok image_paths =>
            if bool_decide (mode = lit "direct_reasoning") then
              StreamingResponse
                (sse (stream_direct_reasoning W client query image_paths))
            else if bool_decide (mode = lit "agentic_search") then
              StreamingResponse
                (sse (stream_agentic_search W client query image_paths))
            else if bool_decide (mode = lit "naive_rag") then
              StreamingResponse
                (sse (stream_naive_rag W client query image_paths))
            else JsonError 400 (lit "Unknown mode: " ++ mode)
        end
    end.

(** [POST /stop] *)
Definition stop (task_id : str) (active_tasks : gmap str bool)
  : response * gmap str bool :=
  match active_tasks !! task_id with
  | Some _ =>
      (StopResponse Stopping task_id, <[task_id := true]> active_tasks)
  | None => (StopResponse NotFound task_id, active_tasks)
  end.

(** The requests that reach the two endpoints. *)
Inductive request :=
  | Infer (query model mode : str) (files : list str)
  | Stop (task_id : str).

(** One request against the module state: only [stop] looks at the
    registry, and no handler adds a task to it. *)
Definition handle (W : World) (clients : gmap str ModelClient)
    (req : request) (active_tasks : gmap str bool)
  : response * gmap str bool :=
  match req with
  | Infer query model mode files =>
      (infer W clients query model mode files, active_tasks)
  | Stop task_id => stop task_id active_tasks
  end.

Fixpoint serve (W : World) (clients : gmap str ModelClient)
    (reqs : list request) (active_tasks : gmap str bool)
  : list response * gmap str bool :=
  match reqs with
  | [] => ([], active_tasks)
  | req :: rest =>
      let '(resp, active_tasks') := handle W clients req active_tasks in
      let '(resps, final) := serve W clients rest active_tasks' in
      (resp :: resps, final)
  end.

Definition initial_state (f : cache_file_t) : state := State f [] [].

(** * Specification vocabulary

    The notions the properties are stated with. *)

(** ** Occurrences of a substring *)

(** [sub] occurs in [text] at index [i]. *)
Definition occurs_at (sub text : str) (i : nat) : Prop :=
  exists rest, drop i text = sub ++ rest.

(** [i] is the highest index at which [sub] occurs inside [text[:e]]. *)
Definition rightmost_in (sub text : str) (e i : nat) : Prop :=
  (i + length sub <= e)%nat /\ occurs_at sub text i /\
  forall i', (i < i')%nat -> (i' + length sub <= e)%nat ->
             ~ occurs_at sub text i'.

(** ** Directive spans *)

(** The text strictly between an opening delimiter at index [o] and a
    closing delimiter at index [c]. *)
Definition between (text : str) (o c : nat) : str :=
  take (c - (o + length open_tag)) (drop (o + length open_tag) text).

(** [text] contains a complete directive span. *)
Definition has_span (text : str) : Prop :=
  exists pre mid post, text = pre ++ open_tag ++ mid ++ close_tag ++ post.

(** The closing delimiter chosen by the right-to-left scan, and the
    opening delimiter nearest before it. *)
Definition last_span (text : str) (o c : nat) : Prop :=
  rightmost_in close_tag text (length text) c /\
  rightmost_in open_tag text c o.

(** The worked example of the specification. *)
Definition two_directives : str :=
  lit "<search>first</search> filler <search>second</search>".

(** The same behind three dots, as the specification writes it. *)
Definition dotted_example : str :=
  lit "...<search>first</search> filler <search>second</search>".

(** ** The cache, the summarizer and the fetcher *)

(** The dict [load_cache] returns in state [s]. *)
Definition loaded (s : state) : gmap str (list page) :=
  match cache_file s with
  | FileJson d => d
  | _ => ∅
  end.

(** The provider's hits in a state-free form. *)
Definition provider_hits (W : World) (query : str) (top_k : Z) : list hit :=
  match serper_post W query with
  | SerperRaises _ => []
  | SerperReply ok organic =>
      if ok then List.map hit_of_organic (slice_to top_k organic) else []
  end.

(** The URLs a cache miss hands to the fetcher. *)
Definition fetched_urls (search_results : list hit) : list str :=
  List.map hit_url
    (List.filter (fun item => truthy (hit_url item)) search_results).

(** The mapping the fetcher returns for them. *)
Definition page_texts_of (W : World) (urls : list str) : gmap str str :=
  foldl (collect W JINA_API_KEY) ∅ urls.

(** The list a cache miss builds, stores and returns. *)
Definition fresh_results (W : World) (query : str) (top_k : Z) : list page :=
  let search_results := provider_hits W query top_k in
  List.map (combine_result (page_texts_of W (fetched_urls search_results)))
           search_results.

(** The test [query in cache and len(cache[query]) >= top_k]. *)
Definition cache_hit (s : state) (query : str) (top_k : Z) : bool :=
  match loaded s !! query with
  | Some cached => len cached >=? top_k
  | None => false
  end.

(** The filter of [summarize_pages]: content that is empty or carries
    the failure marker is skipped. *)
Definition unusable (item : page) : bool :=
  negb (truthy (content item)) || startswith (content item) error_marker.

(** [enumerate(pages, i)] *)
Fixpoint enumerate_from (i : N) (pages : list page) : list (N * page) :=
  match pages with
  | [] => []
  | item :: rest => (i, item) :: enumerate_from (i + 1)%N rest
  end.

(** The entries the summarizer keeps, with their 1-based positions. *)
Definition kept (pages : list page) : list (N * page) :=
  List.filter (fun ip => negb (unusable (snd ip))) (enumerate_from 1 pages).

(** The prompt the summarizer sends for them. *)
Definition summary_prompt (pages : list page) : str :=
  summary_instruction
    ++ join [10%N; 10%N]
         (List.map (fun ip => page_block (fst ip) (snd ip)) (kept pages)).

(** A fetch fails: the request raises (network error, timeout) or the
    status is not 200. *)
Definition fetch_fails (r : jina_response) : Prop :=
  match r with
  | JinaRaises _ => True
  | JinaReply status_code _ => status_code <> 200%N
  end.

(** ** Runs of the loop *)

(** The number of generation rounds in a call log. *)
Fixpoint model_calls (l : list call) : nat :=
  match l with
  | [] => 0
  | CallModel _ :: r => S (model_calls r)
  | _ :: r => model_calls r
  end.

(** The stop sequence the loop passes to the model client. *)
Definition loop_stop : option (list str) := Some [lit "</search>"].

(** The state after the tokens of a round have been forwarded. *)
Definition after_tokens (h : list message) (toks : list str) (s : state)
  : state :=
  State (cache_file s) (calls s ++ [CallModel h])
        (events s ++ List.map Token toks).

(** The state after one more event has been yielded. *)
Definition emit (e : event) (s : state) : state :=
  State (cache_file s) (calls s) (events s ++ [e]).

(** The token event that carries a search summary to the caller. *)
Definition result_token (summary : str) : event :=
  Token ([10%N] ++ result_span summary ++ [10%N]).

(** A query the loop acts on: extraction found one and it is not empty. *)
Definition wants_search (output : str) : bool :=
  truthy (default [] (extract_search_query output)).


(** The text carried by the token events of an event sequence. *)
Definition event_text (e : event) : str :=
  match e with
  | Token c => c
  | _ => []
  end.

(** The concatenation of all token-event texts. *)
Definition token_text (evs : list event) : str :=
  concat (List.map event_text evs).

(** A response that does not acknowledge a cancellation. *)
Definition not_stopping (r : response) : bool :=
  match r with
  | StopResponse NotFound _ => true
  | StreamingResponse _ => true
  | JsonError _ _ => true
  | ValidationError => true
  | InternalServerError _ => true
  | StopResponse Stopping _ => false
  end.

(** ** Scenarios

    Concrete collaborators on which the statements above are run. *)

Module Scenario.

Definition paris_url : str := lit "https://a.example/paris".
Definition slow_url : str := lit "https://b.example/slow".
Definition missing_url : str := lit "https://c.example/gone".

Definition organic : list organic_item :=
  [ Organic (Some (lit "Paris")) (Some paris_url) (Some (lit "Capital"));
    Organic (Some (lit "History")) (Some slow_url) None;
    Organic (Some (lit "Archive")) (Some missing_url) (Some (lit "Old")) ].

(** A world around a model server that answers every request with the
    given lines.  The toy chunk decoder takes the chunk as its delta;
    one page is served, one request times out, one is answered 404. *)
Definition world (lines : list str) : World := {|
  image_b64 := fun _ => Ok (lit "iVBORw0KGgo=");
  guess_type := fun _ => None;
  vllm_post := fun _ _ => VllmReply 200 [] lines;
  chunk_delta := fun data => Some data;
  serper_post := fun _ => SerperReply true organic;
  jina_get := fun u =>
    if bool_decide (u = paris_url)
    then JinaReply 200 (lit "Paris [map](https://maps.example) is the capital. ")
    else if bool_decide (u = slow_url) then JinaRaises (lit "Read timed out.")
    else JinaReply 404 (lit "Not Found");
  deepseek_create := fun _ _ => Ok (lit "Paris has been the capital.");
  save_upload := fun tmp_path =>
    if bool_decide (tmp_path = lit "/tmp/x/y.png")
    then Raise (lit "[Errno 2] No such file or directory: '/tmp/x/y.png'")
    else Ok tt
|}.

Definition answering : World :=
  world [ lit "data: Paris is"; lit ""; lit "data:  the capital.";
          lit "data: [DONE]"; lit "data: ignored" ].

Definition searching : World :=
  world [ lit "data: Let me check. ";
          lit "data: <search>capital of France</search>";
          lit "data: [DONE]" ].

Definition blank : World :=
  world [ lit "data: <search>   </search>"; lit "data: [DONE]" ].

Definition dangling : World :=
  world [ lit "data: I will look this up: <search>capital of";
          lit "data: [DONE]" ].

Definition client : ModelClient :=
  Client (lit "http://localhost:8000/v1/chat/completions")
         (lit "Qwen/Qwen3-VL-8B-Thinking").

Definition question : str := lit "What is the capital of France?".

Definition start : state := initial_state FileMissing.

Definition stored : list page :=
  [ Page (lit "Paris") paris_url (lit "Capital") (lit "Paris is the capital.");
    Page (lit "History") slow_url [] (lit "[Error] Failed fetching") ].

Definition warm : state :=
  initial_state (FileJson {[ question := stored ]}).

Definition failed_pages : list page :=
  [ Page [] [] [] [];
    Page [] [] [] (lit "[Error] Jina error 404: Not Found") ].

Definition long_pages : list page :=
  [ Page (lit "Atlas") slow_url [] (replicate (Z.to_nat 10050) 97%N);
    Page (lit "History") missing_url []
         (lit "[Error] Jina error 404: Not Found");
    Page (lit "Paris") paris_url (lit "Capital")
         (lit "Paris is the capital.") ].

Definition three_urls : list str := [paris_url; slow_url; missing_url].

End Scenario.

Import Scenario.

(** The history and the client registry of the scenarios. *)
Definition first_history : list message := initial_history question [].

Definition clients : gmap str ModelClient := {[ lit "qwen" := client ]}.

(** ** Further vocabulary *)

(** A string without leading or trailing whitespace. *)
Definition trimmed (s : str) : Prop :=
  (forall c r, s = c :: r -> isspace c = false) /\
  (forall c r, s = r ++ [c] -> isspace c = false).

(** A page whose content carries the failure marker. *)
Definition failure_marked (item : page) : Prop :=
  startswith (content item) error_marker = true.

(** The queries sent to the search provider in a call log. *)
Fixpoint serper_queries (l : list call) : list str :=
  match l with
  | [] => []
  | CallSerper q :: r => q :: serper_queries r
  | _ :: r => serper_queries r
  end.

(** An event that ends a stream. *)
Definition terminal (e : event) : bool :=
  match e with
  | Done | Error _ => true
  | _ => false
  end.

(** Events that form one well-terminated stream: no terminal event but
    the last one. *)
Definition well_terminated (evs : list event) : Prop :=
  exists body last,
    evs = body ++ [last] /\ terminal last = true /\
    forallb (fun e => negb (terminal e)) body = true.

(** An assistant message holding one text part. *)
Definition assistant_text (m : message) : Prop :=
  exists text, m = assistant text.

(** How [prepare_messages] formats one content part. *)
Definition formats (W : World) (c : part) (v : vpart) : Prop :=
  match c with
  | TextPart text => v = VText text
  | ImagePathPart image_path =>
      exists img_b64,
        image_b64 W image_path = Ok img_b64 /\
        v = VImageUrl
              (lit "data:"
                 ++ (match guess_type W image_path with
                     | Some m => if truthy m then m else lit "image/png"
                     | None => lit "image/png"
                     end)
                 ++ lit ";base64," ++ img_b64)
  end.

(** A line of the server's stream that ends it: [data: [DONE]]. *)
Definition done_line (line : str) : Prop :=
  truthy line = true /\ startswith line data_prefix = true /\
  strip (slice_from (len data_prefix) line) = done_marker.

(** A line of the server's stream that the client reads: non-empty and
    starting with [data: ]. *)
Definition data_line (line : str) : bool :=
  truthy line && startswith line data_prefix.

(** The histories of the model calls in a call log, in order. *)
Fixpoint model_histories (l : list call) : list (list message) :=
  match l with
  | [] => []
  | CallModel h :: r => h :: model_histories r
  | _ :: r => model_histories r
  end.

(** [hi] is [h] followed by assistant text messages, two per search
    round. *)
Definition extends (h hi : list message) : Prop :=
  exists added k,
    hi = h ++ added /\ Forall assistant_text added /\
    length added = (2 * k)%nat.

(** What the model answers to the generation call the loop makes with
    history [h]. *)
Definition round_output (W : World) (client : ModelClient)
    (h : list message) : str :=
  concat (yielded (stream_generate W client h loop_stop true)).

(** The histories of the generation calls that follow the one made with
    [h]: the answer to each call asked for a search, and the next call
    is made with the history of that call followed by two assistant
    messages, the answer itself and a search-result span. *)
Fixpoint round_chain (W : World) (client : ModelClient)
    (h : list message) (later : list (list message)) : Prop :=
  match later with
  | [] => True
  | h' :: later' =>
      raised (stream_generate W client h loop_stop true) = None /\
      wants_search (round_output W client h) = true /\
      (exists summary,
         h' = h ++ [assistant (round_output W client h);
                    assistant (result_span summary)]) /\
      round_chain W client h' later'
  end.

(** A query worth sending: not empty, no whitespace at either end. *)
Definition searchable (q : str) : Prop := q <> [] /\ trimmed q.


(** A generator's events: non-terminal events, then the done event if
    and only if it returned. *)
Definition streams (m : M unit) : Prop :=
  forall s, exists r s' body,
    m s = (r, s') /\
    forallb (fun e => negb (terminal e)) body = true /\
    events s' = events s ++ body
                  ++ match r with Ok _ => [Done] | Raise _ => [] end.

(** A cache that holds one served page. *)
Definition tidy : state :=
  initial_state
    (FileJson {[ question := [Page (lit "Paris") paris_url (lit "Capital")
                                   (lit "Paris is the capital.")] ]}).

(** Two more worlds: one where no upload can be read, one whose model
    server is overloaded. *)
Definition unreadable : World := {|
  image_b64 := fun _ => Raise (lit "No such file or directory");
  guess_type := guess_type answering;
  vllm_post := vllm_post answering;
  chunk_delta := chunk_delta answering;
  serper_post := serper_post answering;
  jina_get := jina_get answering;
  deepseek_create := deepseek_create answering;
  save_upload := save_upload answering
|}.

Definition overloaded : World := {|
  image_b64 := image_b64 answering;
  guess_type := guess_type answering;
  vllm_post := fun _ _ => VllmReply 503 (lit "busy") [];
  chunk_delta := chunk_delta answering;
  serper_post := serper_post answering;
  jina_get := jina_get answering;
  deepseek_create := deepseek_create answering;
  save_upload := save_upload answering
|}.

(** A form that has its three fields, none of them empty. *)
Definition posted (query model mode : str) : Prop :=
  query <> [] /\ model <> [] /\ mode <> [].

(** Every upload that has a file name can be written under [/tmp] by
    that name. *)
Definition uploads_saved (W : World) (files : list str) : Prop :=
  Forall (fun filename =>
            filename <> [] ->
            save_upload W (lit "/tmp/" ++ filename) = Ok tt) files.

(** A mode that names none of the three workflows. *)
Definition unknown_mode (mode : str) : Prop :=
  mode <> lit "direct_reasoning" /\ mode <> lit "agentic_search" /\
  mode <> lit "naive_rag".

(** A world whose search provider cannot be reached. *)
Definition offline : World := {|
  image_b64 := image_b64 answering;
  guess_type := guess_type answering;
  vllm_post := vllm_post answering;
  chunk_delta := chunk_delta answering;
  serper_post := fun _ => SerperRaises (lit "Connection refused");
  jina_get := jina_get answering;
  deepseek_create := deepseek_create answering;
  save_upload := save_upload answering
|}.

(** * Properties *)

(** ** String primitives *)

Module PyFacts.

Lemma startswith_spec s p :
  startswith s p = true <-> exists rest, s = p ++ rest.
Proof.
  revert s. induction p as [|a p IH]; intros s; simpl.
  - split; [intros _; by exists s | done].
  - destruct s as [|b s].
    + split; [done | intros [r Hr]; discriminate].
    + destruct (N.eqb_spec a b) as [->|Hne].
      * rewrite IH. split; intros [r Hr]; exists r; simpl in *; congruence.
      * split; [done | intros [r Hr]; simpl in Hr; congruence].
Qed.

Lemma startswith_occurs text sub i :
  startswith (drop i text) sub = true <-> occurs_at sub text i.
Proof. apply startswith_spec. Qed.

Lemma occurs_at_bound sub text i :
  occurs_at sub text i -> sub <> [] -> (i + length sub <= length text)%nat.
Proof.
  intros [r Hr] Hne.
  assert (Hl : length (drop i text) = length (sub ++ r)) by by rewrite Hr.
  rewrite length_drop, length_app in Hl.
  destruct sub; [done|]. simpl in *. lia.
Qed.

Lemma occurs_at_split sub text i :
  occurs_at sub text i ->
  text = take i text ++ sub ++ drop (i + length sub) text.
Proof.
  intros [r Hr].
  rewrite <- (take_drop i text) at 1. f_equal.
  rewrite <- drop_drop, Hr. by rewrite drop_app_length.
Qed.

Lemma occurs_at_app pre sub post :
  occurs_at sub (pre ++ sub ++ post) (length pre).
Proof. exists post. by rewrite drop_app_length. Qed.

Lemma rfind_down_spec text sub lo k :
  (rfind_down text sub lo k = -1 /\
   forall j, (j <= k)%nat -> ~ occurs_at sub text (lo + j))
  \/
  (exists j, (j <= k)%nat /\
     rfind_down text sub lo k = Z.of_nat (lo + j) /\
     occurs_at sub text (lo + j) /\
     forall j', (j < j')%nat -> (j' <= k)%nat ->
                ~ occurs_at sub text (lo + j')).
Proof.
  induction k as [|k IH]; simpl.
  - destruct (startswith (drop (lo + 0) text) sub) eqn:E.
    + right. exists 0%nat. split; [lia|]. split; [done|].
      split; [by apply startswith_occurs | intros; lia].
    + left. split; [done|]. intros j Hj Hocc.
      assert (j = 0%nat) as -> by lia.
      apply startswith_occurs in Hocc. congruence.
  - destruct (startswith (drop (lo + S k) text) sub) eqn:E.
    + right. exists (S k). split; [lia|]. split; [done|].
      split; [by apply startswith_occurs | intros; lia].
    + assert (Hno : ~ occurs_at sub text (lo + S k)).
      { intros Hocc. apply startswith_occurs in Hocc. congruence. }
      destruct IH as [[Hr Hall]|(j & Hj & Hr & Hocc & Hafter)].
      * left. split; [done|]. intros j Hj.
        destruct (decide (j = S k)) as [->|]; [done | apply Hall; lia].
      * right. exists j. split; [lia|]. split; [done|]. split; [done|].
        intros j' H1 H2.
        destruct (decide (j' = S k)) as [->|]; [done | apply Hafter; lia].
Qed.

Lemma clamp_inside n i : 0 <= i <= n -> clamp n i = i.
Proof. unfold clamp. intros H. destruct (Z.ltb_spec i 0); lia. Qed.

(** [text.rfind(sub, 0, e)] for a bound inside the text: either nothing
    occurs inside [text[:e]] and the result is [-1], or the result is
    the highest occurrence. *)
Lemma rfind_spec text sub e :
  (e <= length text)%nat ->
  (rfind text sub 0 (Z.of_nat e) = -1 /\
   forall i, (i + length sub <= e)%nat -> ~ occurs_at sub text i)
  \/
  (exists i, rfind text sub 0 (Z.of_nat e) = Z.of_nat i /\
             rightmost_in sub text e i).
Proof.
  intros He. unfold rfind, len.
  rewrite !clamp_inside by lia.
  destruct (Z.ltb_spec (Z.of_nat e - 0) (Z.of_nat (length sub))) as [Hlt|Hge].
  - left. split; [done|]. intros; lia.
  - replace (Z.to_nat 0) with 0%nat by done.
    replace (Z.to_nat (Z.of_nat e - 0 - Z.of_nat (length sub)))
      with (e - length sub)%nat by lia.
    destruct (rfind_down_spec text sub 0 (e - length sub))
      as [[Hr Hall]|(j & Hj & Hr & Hocc & Hafter)].
    + left. split; [done|]. intros i Hi. apply (Hall i). lia.
    + right. exists j. split; [done|]. repeat split; [lia | done |].
      intros i' H1 H2. apply (Hafter i'); lia.
Qed.

Lemma rightmost_in_unique sub text e i j :
  rightmost_in sub text e i -> rightmost_in sub text e j -> i = j.
Proof.
  intros (Hi & Oi & Ai) (Hj & Oj & Aj).
  destruct (Nat.lt_trichotomy i j) as [H|[H|H]]; [|done|].
  - exfalso. by apply (Ai j).
  - exfalso. by apply (Aj i).
Qed.

Lemma rfind_rightmost text sub e i :
  (e <= length text)%nat -> rightmost_in sub text e i ->
  rfind text sub 0 (Z.of_nat e) = Z.of_nat i.
Proof.
  intros He Hi. destruct (rfind_spec text sub e He) as [[_ Hno]|(j & Hr & Hj)].
  - destruct Hi as (Hb & Ho & _). exfalso. by apply (Hno i).
  - by rewrite Hr, (rightmost_in_unique _ _ _ _ _ Hi Hj).
Qed.

Lemma slice_inside {A} (l : list A) (i j : nat) :
  (i <= j)%nat -> (j <= length l)%nat ->
  slice (Z.of_nat i) (Z.of_nat j) l = take (j - i) (drop i l).
Proof.
  intros Hij Hj. unfold slice, len. rewrite !clamp_inside by lia.
  f_equal; [lia | f_equal; lia].
Qed.

Lemma slice_to_nonneg {A} (l : list A) (k : Z) :
  0 <= k -> slice_to k l = take (Z.to_nat k) l.
Proof.
  intros Hk. unfold slice_to, slice, len.
  rewrite (clamp_inside _ 0) by lia.
  unfold clamp. destruct (Z.ltb_spec k 0); [lia|].
  rewrite Z.sub_0_r. change (Z.to_nat 0) with 0%nat. rewrite drop_0.
  destruct (Z.min_spec k (Z.of_nat (length l))) as [[H1 ->]|[H1 ->]].
  - done.
  - rewrite Nat2Z.id. rewrite !take_ge by lia. done.
Qed.

Lemma slice_to_length {A} (l : list A) (k : Z) :
  0 <= k -> (length (slice_to k l) <= Z.to_nat k)%nat.
Proof. intros Hk. rewrite slice_to_nonneg by done. rewrite length_take. lia. Qed.

End PyFacts.

Import PyFacts.

(** ** Directive extraction *)

Lemma open_tag_length : length open_tag = 8%nat.
Proof. reflexivity. Qed.

Lemma close_tag_length : length close_tag = 9%nat.
Proof. reflexivity. Qed.

Lemma last_span_bounds text o c :
  last_span text o c ->
  (o + 8 <= c)%nat /\ (c + 9 <= length text)%nat.
Proof.
  intros [(Hc & _) (Ho & _)].
  rewrite close_tag_length in Hc. rewrite open_tag_length in Ho. lia.
Qed.

Lemma last_span_split text o c :
  last_span text o c ->
  text = take o text ++ open_tag ++ between text o c ++ close_tag
           ++ drop (c + 9) text.
Proof.
  intros Hs. pose proof (last_span_bounds _ _ _ Hs) as [Hoc Hcl].
  destruct Hs as [(_ & Hclose & _) (_ & Hopen & _)].
  apply occurs_at_split in Hopen. apply occurs_at_split in Hclose.
  rewrite open_tag_length in Hopen. rewrite close_tag_length in Hclose.
  unfold between. rewrite open_tag_length.
  assert (Hmid : drop (o + 8) text =
                 take (c - (o + 8)) (drop (o + 8) text) ++ close_tag
                   ++ drop (c + 9) text).
  { rewrite <- (take_drop (c - (o + 8)) (drop (o + 8) text)) at 1.
    f_equal. rewrite drop_drop.
    replace (o + 8 + (c - (o + 8)))%nat with c by lia.
    rewrite Hclose at 1. rewrite drop_app_length'; [done|].
    rewrite length_take. lia. }
  rewrite <- Hmid. exact Hopen.
Qed.

Lemma last_span_has_span text o c : last_span text o c -> has_span text.
Proof.
  intros Hs. exists (take o text), (between text o c), (drop (c + 9) text).
  by apply last_span_split.
Qed.

Lemma extract_last_span text o c :
  last_span text o c ->
  extract_search_query text = Some (strip (between text o c)).
Proof.
  intros Hs. pose proof (last_span_bounds _ _ _ Hs) as [Hoc Hcl].
  destruct Hs as [Hclose Hopen].
  unfold extract_search_query.
  destruct text as [|x text']; [simpl in Hcl; lia|].
  set (text := x :: text') in *. simpl truthy. simpl negb. cbv iota zeta.
  change (len text) with (Z.of_nat (length text)).
  rewrite (rfind_rightmost text close_tag (length text) c) by (done || lia).
  destruct (Z.eqb_spec (Z.of_nat c) (-1)); [lia|].
  rewrite (rfind_rightmost text open_tag c o) by (done || lia).
  destruct (Z.eqb_spec (Z.of_nat o) (-1)); [lia|].
  unfold between. rewrite open_tag_length.
  replace (Z.of_nat o + len open_tag) with (Z.of_nat (o + 8))
    by (unfold len; rewrite open_tag_length; lia).
  rewrite slice_inside by lia. done.
Qed.

Lemma span_occurrences pre mid post :
  let text := pre ++ open_tag ++ mid ++ close_tag ++ post in
  occurs_at open_tag text (length pre) /\
  occurs_at close_tag text (length pre + 8 + length mid).
Proof.
  intros text. split.
  - apply occurs_at_app.
  - exists post. subst text.
    replace (pre ++ open_tag ++ mid ++ close_tag ++ post)
      with ((pre ++ open_tag ++ mid) ++ close_tag ++ post)
      by by rewrite <- !app_assoc.
    rewrite drop_app_length'; [done|].
    rewrite !length_app, open_tag_length. lia.
Qed.

(** Extraction succeeds exactly on the texts with a complete span, and
    then it acts on the last one. *)
Lemma extract_cases text :
  (extract_search_query text = None /\ ~ has_span text)
  \/ (exists o c, last_span text o c /\
        extract_search_query text = Some (strip (between text o c))).
Proof.
  destruct (rfind_spec text close_tag (length text)) as [[Hr Hno]|(c & Hr & Hc)];
    [done| |].
  - left. split.
    + unfold extract_search_query. destruct (truthy text); [|done].
      cbv zeta. simpl negb. cbv iota.
      change (len text) with (Z.of_nat (length text)). by rewrite Hr.
    + intros (pre & mid & post & ->).
      destruct (span_occurrences pre mid post) as [_ Hocc].
      eapply Hno; [|exact Hocc].
      rewrite !length_app, open_tag_length, close_tag_length. lia.
  - assert (Hcl : (c <= length text)%nat) by (destruct Hc; lia).
    destruct (rfind_spec text open_tag c Hcl) as [[Hr' Hno]|(o & Hr' & Ho)].
    + left. split.
      * unfold extract_search_query. destruct (truthy text); [|done].
        cbv zeta. simpl negb. cbv iota. change (len text) with (Z.of_nat (length text)). rewrite Hr.
        destruct (Z.eqb_spec (Z.of_nat c) (-1)); [done|].
        by rewrite Hr'.
      * intros (pre & mid & post & ->).
        destruct (span_occurrences pre mid post) as [Hopen Hclose].
        destruct Hc as (Hb & _ & Hlater).
        assert (Hle : (length pre + 8 + length mid <= c)%nat).
        { destruct (decide (length pre + 8 + length mid <= c)%nat); [done|].
          exfalso. eapply (Hlater (length pre + 8 + length mid)%nat);
            [lia| |exact Hclose].
          rewrite !length_app, open_tag_length, close_tag_length. lia. }
        eapply Hno; [|exact Hopen]. rewrite open_tag_length. lia.
    + right. exists o, c. split; [done|]. by apply extract_last_span.
Qed.

Lemma extract_none_iff text :
  extract_search_query text = None <-> ~ has_span text.
Proof.
  destruct (extract_cases text) as [[Hn Hs]|(o & c & Hs & He)].
  - done.
  - split; [congruence|]. intros Hno. exfalso.
    apply Hno. by eapply last_span_has_span.
Qed.

Lemma rfind_found text sub e i :
  (e <= length text)%nat ->
  rfind text sub 0 (Z.of_nat e) = Z.of_nat i ->
  rightmost_in sub text e i.
Proof.
  intros He Hr. destruct (rfind_spec text sub e He) as [[Hr' _]|(j & Hr' & Hj)].
  - lia.
  - by replace i with j by lia.
Qed.

Lemma occurs_at_shift pre s sub i :
  occurs_at sub (pre ++ s) (length pre + i) <-> occurs_at sub s i.
Proof. unfold occurs_at. by rewrite <- drop_drop, drop_app_length. Qed.

Lemma occurs_at_prefix_bound pre sub i :
  occurs_at sub pre i -> sub <> [] -> (i < length pre)%nat.
Proof.
  intros Ho Hne. pose proof (occurs_at_bound _ _ _ Ho Hne).
  destruct sub; [done|]. simpl in *. lia.
Qed.

Lemma rightmost_in_shift pre s sub e i :
  rightmost_in sub s e i ->
  rightmost_in sub (pre ++ s) (length pre + e) (length pre + i).
Proof.
  intros (Hb & Ho & Hl). repeat split.
  - lia.
  - by apply occurs_at_shift.
  - intros i' H1 H2 Hocc.
    replace i' with (length pre + (i' - length pre))%nat in Hocc by lia.
    apply occurs_at_shift in Hocc. apply (Hl (i' - length pre)%nat); [lia..|done].
Qed.

Lemma last_span_shift pre s o c :
  last_span s o c -> last_span (pre ++ s) (length pre + o) (length pre + c).
Proof.
  intros [Hc Ho]. split.
  - rewrite length_app. by apply rightmost_in_shift.
  - by apply rightmost_in_shift.
Qed.

Lemma between_shift pre s o c :
  between (pre ++ s) (length pre + o) (length pre + c) = between s o c.
Proof.
  unfold between.
  replace (length pre + o + length open_tag)%nat
    with (length pre + (o + length open_tag))%nat by lia.
  rewrite <- drop_drop, drop_app_length. f_equal. lia.
Qed.

Lemma two_directives_last_span : last_span two_directives 30 44.
Proof. split; apply rfind_found; (vm_compute; lia) || reflexivity. Qed.

Lemma extract_two_directives pre :
  extract_search_query (pre ++ two_directives) = Some (lit "second").
Proof.
  rewrite (extract_last_span _ (length pre + 30) (length pre + 44)).
  - by rewrite between_shift.
  - apply last_span_shift, two_directives_last_span.
Qed.

Lemma last_span_unique text o c o' c' :
  last_span text o c -> last_span text o' c' -> o' = o /\ c' = c.
Proof.
  intros [Hc Ho] [Hc' Ho'].
  assert (c' = c) as -> by by eapply rightmost_in_unique.
  split; [by eapply rightmost_in_unique | done].
Qed.

Lemma has_span_last_span text :
  has_span text -> exists o c, last_span text o c.
Proof.
  intros Hs. destruct (extract_cases text) as [[_ Hn]|(o & c & Hl & _)];
    [done | by exists o, c].
Qed.

(** C1 (as amended): on every text that holds a complete directive
    span, extraction takes the rightmost closing delimiter and the
    opening delimiter nearest before it (there is exactly one such
    pair), and returns the text between the two with leading and
    trailing whitespace stripped; the text splits accordingly.  A text
    that ends in [<search>first</search> filler <search>second</search>]
    yields [second]. *)
Theorem extract_search_query_last_span (text : str) :
  (has_span text ->
   exists o c,
     last_span text o c /\
     (forall o' c', last_span text o' c' -> o' = o /\ c' = c) /\
     extract_search_query text = Some (strip (between text o c)) /\
     text = take o text ++ open_tag ++ between text o c ++ close_tag
              ++ drop (c + 9) text) /\
  (forall pre,
     extract_search_query (pre ++ two_directives) = Some (lit "second")).
Proof.
  split; [|apply extract_two_directives].
  intros Hs. destruct (has_span_last_span text Hs) as (o & c & Hl).
  exists o, c. split; [done|]. split.
  - intros o' c' Hl'. by eapply last_span_unique.
  - split; [by apply extract_last_span | by apply last_span_split].
Qed.

Lemma dotted_example_last_span : last_span dotted_example 33 47.
Proof.
  split; apply rfind_found;
    [apply Nat.le_refl | vm_compute; reflexivity
    | vm_compute; lia | vm_compute; reflexivity].
Qed.

Lemma extract_search_query_last_span_witness :
  has_span dotted_example /\
  extract_search_query dotted_example = Some (lit "second").
Proof.
  assert (Hs : has_span dotted_example).
  { exists (lit "..."), (lit "first</search> filler <search>second"), [].
    vm_compute; reflexivity. }
  split; [exact Hs|].
  destruct (extract_search_query_last_span dotted_example) as [H _].
  destruct (H Hs) as (o & c & _ & Hu & He & _).
  destruct (Hu 33%nat 47%nat dotted_example_last_span) as [Ho Hc].
  rewrite He, <- Ho, <- Hc. vm_compute; reflexivity.
Defined.

(** C1 as stated fails: the text between the delimiters of
    [<search> a </search>] is [ a ], and extraction returns [a]. *)
Lemma extract_search_query_not_inner_text :
  ~ (forall text o c,
       last_span text o c ->
       extract_search_query text = Some (between text o c)).
Proof.
  intros H.
  assert (Hs : last_span (lit "<search> a </search>") 0 11).
  { split; apply rfind_found; (vm_compute; lia) || reflexivity. }
  specialize (H _ _ _ Hs). vm_compute in H. discriminate.
Qed.

(** ** The search utilities *)

Lemma load_cache_run s : load_cache s = (Ok (loaded s), s).
Proof. unfold load_cache, loaded. by destruct (cache_file s). Qed.

Lemma slice_to_nil {A} (k : Z) : slice_to k (@nil A) = [].
Proof. unfold slice_to, slice. simpl. by rewrite take_nil. Qed.

Lemma serper_search_run (W : World) query api_key top_k s :
  serper_search W query api_key top_k s =
  (Ok (provider_hits W query top_k),
   State (cache_file s) (calls s ++ [CallSerper query]) (events s)).
Proof.
  unfold serper_search, provider_hits, bind, log, ret.
  destruct (serper_post W query) as [e|ok organic]; [done|].
  destruct ok; simpl; [|done].
  destruct organic; [by rewrite slice_to_nil | done].
Qed.

Lemma search_and_fetch_run (W : World) query top_k s :
  search_and_fetch W query top_k s =
  if cache_hit s query top_k
  then (Ok (slice_to top_k (default [] (loaded s !! query))), s)
  else (Ok (fresh_results W query top_k),
        State (FileJson (<[query := fresh_results W query top_k]> (loaded s)))
              (calls s ++ [CallSerper query]
                 ++ List.map CallJina
                      (fetched_urls (provider_hits W query top_k)))
              (events s)).
Proof.
  unfold search_and_fetch, cache_hit. unfold bind at 1.
  rewrite load_cache_run.
  destruct (match loaded s !! query with
            | Some cached => len cached >=? top_k
            | None => false
            end); [done|].
  unfold bind at 1. rewrite serper_search_run.
  unfold fetch_multiple_pages, fetch_multiple_pages_as, bind, ret, save_cache,
    log_all.
  simpl. unfold fresh_results, page_texts_of, fetched_urls.
  by rewrite <- app_assoc.
Qed.



(** *** The summarizer *)

Lemma combined_texts_from_kept i pages :
  combined_texts_from i pages =
  List.map (fun ip => page_block (fst ip) (snd ip))
    (List.filter (fun ip => negb (unusable (snd ip))) (enumerate_from i pages)).
Proof.
  revert i. induction pages as [|item rest IH]; intros i; [done|].
  change (combined_texts_from i (item :: rest))
    with (if unusable item then combined_texts_from (i + 1) rest
          else page_block i item :: combined_texts_from (i + 1) rest).
  simpl. destruct (unusable item); simpl; by rewrite IH.
Qed.

Lemma kept_nil_iff i pages :
  List.filter (fun ip => negb (unusable (snd ip))) (enumerate_from i pages) = []
  <-> Forall (fun item => unusable item = true) pages.
Proof.
  revert i. induction pages as [|item rest IH]; intros i; simpl.
  - split; [constructor | done].
  - destruct (unusable item) eqn:E; simpl.
    + rewrite IH. split; [by constructor | by inversion 1].
    + split; [done | inversion 1; congruence].
Qed.

Lemma kept_pages pages :
  List.map snd (kept pages) =
  List.filter (fun item => negb (unusable item)) pages.
Proof.
  unfold kept. generalize 1%N.
  induction pages as [|item rest IH]; intros i; simpl; [done|].
  destruct (unusable item); simpl; by rewrite IH.
Qed.

Lemma unusable_spec item :
  unusable item = true <->
  content item = [] \/ startswith (content item) error_marker = true.
Proof.
  unfold unusable. destruct (content item) as [|c r]; simpl.
  - split; [by left | done].
  - split; [by right | by intros [?|?]].
Qed.

Lemma lift_run {A} (r : result A) s : lift r s = (r, s).
Proof. by destruct r. Qed.

Lemma forallb_true_iff {A} (f : A -> bool) (l : list A) :
  forallb f l = true <-> Forall (fun x => f x = true) l.
Proof.
  induction l as [|x l IH]; simpl.
  - split; [constructor | done].
  - rewrite andb_true_iff, IH. split.
    + intros [? ?]. by constructor.
    + by inversion 1.
Qed.

Lemma summarize_pages_run W pages model s :
  summarize_pages W pages model s =
  if forallb unusable pages then (Ok no_content_sentinel, s)
  else (deepseek_create W model (summary_prompt pages),
        State (cache_file s)
              (calls s ++ [CallDeepseek model (summary_prompt pages)])
              (events s)).
Proof.
  unfold summarize_pages, summary_prompt, kept.
  rewrite combined_texts_from_kept.
  destruct (forallb unusable pages) eqn:E.
  - apply forallb_true_iff in E. apply (kept_nil_iff 1) in E. by rewrite E.
  - destruct (List.filter _ (enumerate_from 1 pages)) as [|ip l] eqn:Ek.
    + apply kept_nil_iff, forallb_true_iff in Ek. congruence.
    + rewrite map_cons. cbv beta iota. unfold bind, log. by rewrite lift_run.
Qed.

(** C7: when every entry's content is empty or starts with [[Error]],
    the sentinel is returned and the state, with its call log, is
    untouched: the model is not invoked.  Otherwise the model is invoked
    once, and what it is sent is written out here: the instruction, then
    one block for each entry whose content is non-empty and not
    failure-marked and for no other, in the order of the input and
    separated by blank lines, a block being the heading with the entry's
    1-based position in the input and its title, a newline, and the
    first 10000 characters of the content: the whole content when it has
    at most 10000 characters, exactly 10000 of them otherwise. *)
Theorem summarize_pages_filters (W : World) (pages : list page)
    (model : str) (s : state) :
  (Forall (fun item => content item = [] \/
                       startswith (content item) error_marker = true) pages ->
   summarize_pages W pages model s = (Ok no_content_sentinel, s)) /\
  (Exists (fun item => content item <> [] /\
                       startswith (content item) error_marker = false) pages ->
   let usable := fun item : page =>
     negb (bool_decide (content item = []))
     && negb (startswith (content item) error_marker) in
   let sent := List.filter (fun ip => usable (snd ip))
                           (enumerate_from 1 pages) in
   let cut := fun item : page => take (Z.to_nat 10000) (content item) in
   let prompt :=
     summary_instruction
       ++ join [10%N; 10%N]
            (List.map (fun ip => lit "### Page " ++ str_of_N (fst ip)
                                   ++ lit ": " ++ title (snd ip) ++ [10%N]
                                   ++ cut (snd ip)) sent) in
   summarize_pages W pages model s =
     (deepseek_create W model prompt,
      State (cache_file s) (calls s ++ [CallDeepseek model prompt])
            (events s)) /\
   List.map snd sent = List.filter usable pages /\
   sent <> [] /\
   (forall item,
      len (cut item) <= 10000 /\
      (len (content item) <= 10000 -> cut item = content item) /\
      (10000 < len (content item) ->
       len (cut item) = 10000 /\
       cut item ++ drop (Z.to_nat 10000) (content item) = content item))).
Proof.
  assert (Hu : forall item : page,
             negb (bool_decide (content item = []))
             && negb (startswith (content item) error_marker)
             = negb (unusable item)).
  { intros item. unfold unusable. destruct (content item) as [|c r]; [done|].
    rewrite (bool_decide_eq_false_2 (c :: r = [])) by done.
    cbn [truthy negb orb andb]. by destruct (startswith _ _). }
  split.
  - intros Hall. rewrite summarize_pages_run.
    assert (forallb unusable pages = true) as ->; [|done].
    apply forallb_true_iff.
    eapply Forall_impl; [exact Hall|]. intros item. apply unusable_spec.
  - intros Hex. cbv beta zeta.
    assert (Hne : forallb unusable pages = false).
    { apply not_true_is_false. intros Hall.
      apply forallb_true_iff in Hall.
      apply Exists_exists in Hex as (item & Hin & Hne & Hst).
      rewrite Forall_forall in Hall. specialize (Hall _ Hin).
      apply unusable_spec in Hall as [?|?]; congruence. }
    assert (Hk : List.filter
                   (fun ip : N * page =>
                      negb (bool_decide (content (snd ip) = []))
                      && negb (startswith (content (snd ip)) error_marker))
                   (enumerate_from 1 pages) = kept pages).
    { unfold kept. apply List.filter_ext. intros ip. apply Hu. }
    assert (Hp : summary_instruction
                   ++ join [10%N; 10%N]
                        (List.map
                           (fun ip : N * page =>
                              lit "### Page " ++ str_of_N (fst ip)
                                ++ lit ": " ++ title (snd ip) ++ [10%N]
                                ++ take (Z.to_nat 10000) (content (snd ip)))
                           (kept pages))
                 = summary_prompt pages).
    { unfold summary_prompt. f_equal. f_equal. apply List.map_ext.
      intros ip. unfold page_block.
      by rewrite (slice_to_nonneg _ 10000) by lia. }
    rewrite Hk, Hp. split; [|split; [|split]].
    + rewrite summarize_pages_run. by rewrite Hne.
    + rewrite kept_pages. symmetry. apply List.filter_ext. intros item.
      apply Hu.
    + intros Hnil. apply (kept_nil_iff 1), forallb_true_iff in Hnil.
      congruence.
    + intros item. unfold len. rewrite length_take.
      split; [lia|]. split.
      * intros Hle. apply take_ge. lia.
      * intros Hlt. split; [lia|]. apply take_drop.
Qed.

Lemma summarize_pages_filters_witness :
  summarize_pages answering failed_pages default_summary_model start
  = (Ok no_content_sentinel, start) /\
  exists s',
    summarize_pages answering long_pages default_summary_model start
    = (Ok (lit "Paris has been the capital."), s') /\
    calls s'
    = [CallDeepseek default_summary_model
         (summary_instruction
            ++ lit "### Page 1: Atlas" ++ [10%N] ++ replicate (Z.to_nat 10000) 97%N
            ++ [10%N; 10%N]
            ++ lit "### Page 3: Paris" ++ [10%N]
            ++ lit "Paris is the capital.")].
Proof.
  split.
  - destruct (summarize_pages_filters answering failed_pages
                default_summary_model start) as [H _].
    apply H.
    constructor; [left; reflexivity|].
    constructor; [right; vm_compute; reflexivity|].
    constructor.
  - destruct (summarize_pages_filters answering long_pages
                default_summary_model start) as [_ H].
    destruct H as (E & _).
    { apply Exists_cons_hd.
      split; [vm_compute; discriminate | vm_compute; reflexivity]. }
    eexists. split; [exact E|].
    vm_compute. reflexivity.
Defined.

(** *** The page fetcher *)

Lemma fetch_page_content_failure (W : World) (url key : str) :
  fetch_fails (jina_get W url) ->
  startswith (fetch_page_content W url key) error_marker = true.
Proof.
  unfold fetch_page_content, fetch_fails.
  destruct (jina_get W url) as [e|status_code text]; [done|].
  intros Hne. destruct (N.eqb_spec status_code 200); [done|]. done.
Qed.

Lemma collect_lookup (W : World) (key : str) (urls : list str)
    (m : gmap str str) (u : str) :
  foldl (collect W key) m urls !! u =
  if decide (u ∈ urls) then Some (fetch_page_content W u key) else m !! u.
Proof.
  revert m. induction urls as [|x urls IH]; intros m; cbn [foldl].
  - rewrite decide_False; [done | apply not_elem_of_nil].
  - rewrite IH. unfold collect, future_result.
    destruct (decide (u ∈ urls)) as [Hin|Hnin].
    + rewrite decide_True; [done | by apply list_elem_of_further].
    + destruct (decide (x = u)) as [->|Hne].
      * rewrite decide_True by apply list_elem_of_here.
        by rewrite lookup_insert_eq.
      * rewrite decide_False.
        -- by rewrite lookup_insert_ne.
        -- intros Hc. apply elem_of_cons in Hc as [->|Hc]; done.
Qed.

Lemma fetch_multiple_pages_as_run (W : World) urls completed (key : str)
    workers s :
  0 < workers ->
  fetch_multiple_pages_as W urls completed key workers s =
  (Ok (foldl (collect W key) ∅ completed),
   State (cache_file s) (calls s ++ List.map CallJina urls) (events s)).
Proof.
  intros Hw. unfold fetch_multiple_pages_as.
  by destruct (Z.leb_spec workers 0); [lia|].
Qed.

Lemma fetch_multiple_pages_as_no_worker (W : World) urls completed
    (key : str) workers s :
  workers <= 0 ->
  fetch_multiple_pages_as W urls completed key workers s
  = (Raise pool_error, s).
Proof.
  intros Hw. unfold fetch_multiple_pages_as.
  by destruct (Z.leb_spec workers 0); [|lia].
Qed.

(** C8: with a pool of at least one worker (the only way the program
    calls it: [search_and_fetch] passes 5, the default is 8) the fetcher
    returns (it does not raise) a mapping whose keys are exactly the
    requested URLs, after one fetch per requested URL; every requested
    URL maps to what its own fetch produced, which depends on the answer
    for that URL alone, and starts with [[Error]] when the fetch failed;
    the order in which the fetches complete does not change the mapping.
    A pool of no worker is the one case that raises, and then no page is
    fetched. *)
Theorem fetch_multiple_pages_total (W : World) (urls : list str)
    (key : str) (workers : Z) (s : state) :
  (0 < workers ->
   exists results s',
     fetch_multiple_pages W urls key workers s = (Ok results, s') /\
     calls s' = calls s ++ List.map CallJina urls /\
     dom results = list_to_set urls /\
     (forall u, u ∈ urls ->
        results !! u = Some (fetch_page_content W u key) /\
        (fetch_fails (jina_get W u) ->
         exists rest, fetch_page_content W u key = error_marker ++ rest) /\
        (forall W' : World,
           jina_get W' u = jina_get W u ->
           fetch_page_content W' u key = fetch_page_content W u key)) /\
     (forall completed,
        Permutation completed urls ->
        fetch_multiple_pages_as W urls completed key workers s
        = (Ok results, s'))) /\
  (workers <= 0 ->
   fetch_multiple_pages W urls key workers s = (Raise pool_error, s)).
Proof.
  split; [|apply fetch_multiple_pages_as_no_worker].
  intros Hw.
  eexists _, _. unfold fetch_multiple_pages.
  split; [by apply fetch_multiple_pages_as_run|]. split; [done|].
  split; [|split].
  - apply set_eq. intros u.
    rewrite elem_of_dom, elem_of_list_to_set, collect_lookup, lookup_empty.
    destruct (decide (u ∈ urls)); split; intros H;
      [done | by eexists | by destruct H | done].
  - intros u Hu. split; [|split].
    + rewrite collect_lookup. by rewrite decide_True.
    + intros Hf. apply startswith_spec. by apply fetch_page_content_failure.
    + intros W' HW. unfold fetch_page_content. by rewrite HW.
  - intros completed Hp. rewrite fetch_multiple_pages_as_run by done.
    f_equal. f_equal.
    apply map_eq. intros u. rewrite !collect_lookup.
    destruct (decide (u ∈ completed)) as [Hin|Hnin].
    + rewrite decide_True; [done|]. by rewrite <- Hp.
    + rewrite decide_False; [done|]. by rewrite <- Hp.
Qed.

Lemma fetch_multiple_pages_total_witness :
  (exists results s',
    fetch_multiple_pages answering three_urls [] 5 start = (Ok results, s') /\
    size results = 3%nat /\
    results !! paris_url = Some (lit "Paris [map] is the capital.") /\
    results !! slow_url
    = Some (lit "[Error] Failed fetching https://b.example/slow: Read timed out.") /\
    results !! missing_url = Some (lit "[Error] Jina error 404: Not Found")) /\
  fetch_multiple_pages answering three_urls [] 0 start
  = (Raise pool_error, start).
Proof.
  destruct (fetch_multiple_pages_total answering three_urls [] 0 start)
    as [_ Hz].
  split; [|apply Hz; lia].
  destruct (fetch_multiple_pages_total answering three_urls [] 5 start)
    as [Hp _].
  destruct (Hp ltac:(lia)) as (results & s' & E & _ & Hd & Hu & _).
  exists results, s'. split; [exact E|]. split.
  - rewrite <- size_dom, Hd. by vm_compute.
  - repeat split.
    + destruct (Hu paris_url) as [-> _];
        [apply list_elem_of_here | vm_compute; reflexivity].
    + destruct (Hu slow_url) as [-> _];
        [apply list_elem_of_further, list_elem_of_here
        | vm_compute; reflexivity].
    + destruct (Hu missing_url) as [-> _];
        [apply list_elem_of_further, list_elem_of_further, list_elem_of_here
        | vm_compute; reflexivity].
Defined.

(** ** The agentic loop *)

Lemma model_calls_app l1 l2 :
  model_calls (l1 ++ l2) = (model_calls l1 + model_calls l2)%nat.
Proof.
  induction l1 as [|c l1 IH]; [done|]. destruct c; simpl; by rewrite ?IH.
Qed.

Lemma model_calls_jina urls : model_calls (List.map CallJina urls) = 0%nat.
Proof. by induction urls. Qed.

Lemma forward_tokens_run output toks s :
  forward_tokens output toks s =
  (Ok (output ++ concat toks),
   State (cache_file s) (calls s) (events s ++ List.map Token toks)).
Proof.
  revert output s. induction toks as [|t toks IH]; intros output s; simpl.
  - rewrite !app_nil_r. by destruct s.
  - unfold bind, yield. rewrite IH. simpl. by rewrite <- !app_assoc.
Qed.

Lemma generate_round_run W client h s :
  let g := stream_generate W client h loop_stop true in
  generate_round W client h s =
  (match raised g with
   | Some e => Raise e
   | None => Ok (concat (yielded g))
   end, after_tokens h (yielded g) s).
Proof.
  intros g. unfold generate_round, bind, log. fold loop_stop. fold g.
  rewrite forward_tokens_run. simpl.
  unfold after_tokens. by destruct (raised g).
Qed.

Lemma search_and_fetch_effect W query top_k s :
  exists pages cf extra,
    search_and_fetch W query top_k s =
      (Ok pages, State cf (calls s ++ extra) (events s)) /\
    model_calls extra = 0%nat /\
    (cache_hit s query top_k = true -> extra = [] /\ cf = cache_file s).
Proof.
  rewrite search_and_fetch_run. destruct (cache_hit s query top_k).
  - eexists _, (cache_file s), []. rewrite app_nil_r. by destruct s.
  - eexists _, _, _. split; [reflexivity|]. split; [|done].
    simpl. apply model_calls_jina.
Qed.

Lemma summarize_pages_effect W pages model s :
  exists r extra,
    summarize_pages W pages model s =
      (r, State (cache_file s) (calls s ++ extra) (events s)) /\
    model_calls extra = 0%nat.
Proof.
  rewrite summarize_pages_run. destruct (forallb unusable pages).
  - eexists _, []. rewrite app_nil_r. by destruct s.
  - by eexists _, _.
Qed.

Lemma agentic_round_run W client h s :
  let g := stream_generate W client h loop_stop true in
  let output := concat (yielded g) in
  let s1 := after_tokens h (yielded g) s in
  agentic_round W client h s =
  match raised g with
  | Some e => (Raise e, s1)
  | None =>
      if wants_search output then
        match search_and_fetch W (default [] (extract_search_query output))
                5 s1 with
        | (Ok pages, s2) =>
            match summarize_pages W pages default_summary_model s2 with
            | (Ok summary, s3) =>
                (Ok (Continue (h ++ [assistant output;
                                     assistant (result_span summary)])),
                 emit (result_token summary) s3)
            | (Raise e, s3) => (Raise e, s3)
            end
        | (Raise e, s2) => (Raise e, s2)
        end
      else (Ok (Returned h), emit Done s1)
  end.
Proof.
  intros g output s1. unfold agentic_round. unfold bind at 1.
  rewrite generate_round_run. fold g. fold s1.
  destruct (raised g) as [e|]; [done|].
  fold output. fold (wants_search output).
  destruct (wants_search output); cbn [negb]; cbv iota; [|done].
  unfold bind at 1.
  destruct (search_and_fetch W _ 5 s1) as [[pages|e] s2]; [|done].
  unfold bind at 1.
  destruct (summarize_pages W pages default_summary_model s2)
    as [[summary|e] s3]; [|done].
  unfold bind, yield, ret, emit, result_token. simpl.
  by rewrite <- !app_assoc.
Qed.

(** The three ways a pass through the loop body can end. *)
Lemma agentic_round_cases W client h s :
  let g := stream_generate W client h loop_stop true in
  let output := concat (yielded g) in
  let s1 := after_tokens h (yielded g) s in
  (exists e extra cf,
     agentic_round W client h s =
       (Raise e, State cf (calls s1 ++ extra) (events s1)) /\
     model_calls extra = 0%nat)
  \/ (raised g = None /\ wants_search output = false /\
      agentic_round W client h s = (Ok (Returned h), emit Done s1))
  \/ (exists summary extra cf,
        raised g = None /\ wants_search output = true /\
        agentic_round W client h s =
          (Ok (Continue (h ++ [assistant output;
                               assistant (result_span summary)])),
           emit (result_token summary)
                (State cf (calls s1 ++ extra) (events s1))) /\
        model_calls extra = 0%nat).
Proof.
  intros g output s1. rewrite agentic_round_run. fold g output s1.
  destruct (raised g) as [e|] eqn:Er.
  { left. exists e, [], (cache_file s1). rewrite app_nil_r. by destruct s1. }
  destruct (wants_search output) eqn:Ew.
  2:{ right; left. done. }
  destruct (search_and_fetch_effect W (default [] (extract_search_query output))
              5 s1) as (pages & cf & extra & -> & Hm & _).
  destruct (summarize_pages_effect W pages default_summary_model
              (State cf (calls s1 ++ extra) (events s1)))
    as (r & extra' & -> & Hm').
  simpl. destruct r as [summary|e].
  - right; right. exists summary, (extra ++ extra'), cf.
    split; [done|]. split; [done|]. split.
    + by rewrite <- !app_assoc.
    + rewrite model_calls_app. lia.
  - left. exists e, (extra ++ extra'), cf. split.
    + by rewrite <- !app_assoc.
    + rewrite model_calls_app. lia.
Qed.

Lemma agentic_loop_events W client n h s :
  exists r s' toks,
    agentic_loop W client n h s = (r, s') /\
    (model_calls (calls s') <= model_calls (calls s) + n)%nat /\
    events s' = events s ++ List.map Token toks
                  ++ match r with Ok _ => [Done] | Raise _ => [] end.
Proof.
  revert h s. induction n as [|n IH]; intros h s.
  - exists (Ok h), (emit Done s), []. split; [done|]. split; [simpl; lia|done].
  - cbn [agentic_loop]. unfold bind at 1.
    pose (g := stream_generate W client h loop_stop true).
    assert (Hs1 : model_calls (calls (after_tokens h (yielded g) s))
                  = S (model_calls (calls s))).
    { simpl. rewrite model_calls_app. simpl. lia. }
    destruct (agentic_round_cases W client h s)
      as [(e & extra & cf & -> & Hm)
         |[(Hr & Hw & ->)|(summary & extra & cf & Hr & Hw & -> & Hm)]];
      fold g in Hs1 |- *.
    + eexists _, _, (yielded g). split; [reflexivity|].
      split; [|by rewrite app_nil_r].
      cbn [calls]. rewrite model_calls_app, Hs1, Hm. lia.
    + eexists _, _, (yielded g). split; [reflexivity|].
      split; [|simpl; by rewrite <- app_assoc].
      cbn [calls emit]. rewrite Hs1. lia.
    + destruct (IH (h ++ [assistant (concat (yielded g));
                          assistant (result_span summary)])
                   (emit (result_token summary)
                      (State cf (calls (after_tokens h (yielded g) s) ++ extra)
                             (events (after_tokens h (yielded g) s)))))
        as (r & s' & toks & -> & Hc & He).
      exists r, s',
        (yielded g ++ [[10%N] ++ result_span summary ++ [10%N]] ++ toks).
      split; [done|]. split.
      * cbn [calls emit] in Hc. rewrite model_calls_app, Hs1, Hm in Hc. lia.
      * rewrite He. cbn [events emit after_tokens]. unfold result_token.
        rewrite !map_app. cbn [List.map]. by rewrite <- !app_assoc.
Qed.




(** A generator that ran to its end has yielded the [<think>] token the
    client emits itself, followed by the deltas of the server. *)
Lemma stream_generate_yielded W client h stop inc :
  raised (stream_generate W client h stop inc) = None ->
  exists text lines vms,
    prepare_messages W h = Ok vms /\
    vllm_post W (base_url client)
      (Payload (model_name client) vms stop inc) = VllmReply 200 text lines /\
    yielded (stream_generate W client h stop inc)
    = lit "<think>" :: stream_lines W lines.
Proof.
  unfold stream_generate.
  destruct (prepare_messages W h) as [vms|e]; [|done].
  destruct (vllm_post W (base_url client) _) as [e|status_code text lines] eqn:E;
    [done|].
  destruct (N.eqb_spec status_code 200) as [->|Hne]; [|done].
  intros _. by exists text, lines, vms.
Qed.






(** *** Rounds that end the loop *)

Lemma token_text_tokens toks :
  token_text (List.map Token toks ++ [Done]) = concat toks.
Proof.
  unfold token_text. rewrite map_app, concat_app, List.map_map. simpl.
  rewrite app_nil_r. f_equal. by rewrite List.map_id.
Qed.

Lemma agentic_round_returns W client h s :
  let g := stream_generate W client h loop_stop true in
  raised g = None ->
  wants_search (concat (yielded g)) = false ->
  agentic_round W client h s
  = (Ok (Returned h), emit Done (after_tokens h (yielded g) s)).
Proof.
  intros g Hr Hw. rewrite agentic_round_run. fold g. by rewrite Hr, Hw.
Qed.

Lemma agentic_loop_returns W client n h s :
  let g := stream_generate W client h loop_stop true in
  raised g = None ->
  wants_search (concat (yielded g)) = false ->
  agentic_loop W client (S n) h s
  = (Ok h, emit Done (after_tokens h (yielded g) s)).
Proof.
  intros g Hr Hw. cbn [agentic_loop]. unfold bind.
  by rewrite (agentic_round_returns W client h s Hr Hw).
Qed.

Lemma stream_agentic_search_returns W client query image_paths s :
  let h := initial_history query image_paths in
  let g := stream_generate W client h loop_stop true in
  raised g = None ->
  wants_search (concat (yielded g)) = false ->
  stream_agentic_search W client query image_paths s
  = (Ok tt, emit Done (after_tokens h (yielded g) s)).
Proof.
  intros h g Hr Hw. unfold stream_agentic_search, max_rounds. unfold bind at 1.
  fold h. by rewrite (agentic_loop_returns W client 19 h s Hr Hw).
Qed.

Lemma no_span_no_search output :
  ~ has_span output -> wants_search output = false.
Proof.
  intros Hn. apply extract_none_iff in Hn. unfold wants_search. by rewrite Hn.
Qed.

(** C5: when the model's stream for the first round ends normally and
    holds no directive, the loop returns after that round; the events
    are one token event per token of the stream followed by one done
    event, and the token texts concatenate to the stream's full text,
    which is the [<think>] token of the client followed by the deltas of
    the server. *)
Theorem no_directive_stream (W : World) (client : ModelClient)
    (query : str) (image_paths : list str) (s : state) :
  let h := initial_history query image_paths in
  let g := stream_generate W client h loop_stop true in
  raised g = None ->
  ~ has_span (concat (yielded g)) ->
  exists s',
    stream_agentic_search W client query image_paths s = (Ok tt, s') /\
    events s' = events s ++ List.map Token (yielded g) ++ [Done] /\
    token_text (List.map Token (yielded g) ++ [Done]) = concat (yielded g) /\
    model_calls (calls s') = S (model_calls (calls s)) /\
    exists deltas, yielded g = lit "<think>" :: deltas.
Proof.
  intros h g Hr Hn. eexists. split.
  - apply stream_agentic_search_returns; [exact Hr|].
    by apply no_span_no_search.
  - split; [cbn [events emit after_tokens]; by rewrite <- app_assoc|].
    split; [apply token_text_tokens|]. split.
    + cbn [calls emit after_tokens]. rewrite model_calls_app. simpl. lia.
    + destruct (stream_generate_yielded W client h loop_stop true Hr)
        as (text & lines & vms & _ & _ & Hy).
      by eexists.
Qed.

Lemma no_directive_stream_witness :
  exists s',
    stream_agentic_search answering client question [] start = (Ok tt, s') /\
    events s'
    = [Token (lit "<think>"); Token (lit "Paris is");
       Token (lit "the capital."); Done].
Proof.
  destruct (no_directive_stream answering client question [] start)
    as (s' & E & He & _).
  - vm_compute; reflexivity.
  - apply extract_none_iff. vm_compute; reflexivity.
  - exists s'. split; [exact E|]. rewrite He. vm_compute; reflexivity.
Defined.

Lemma close_occurs_of_span text :
  has_span text -> exists i, occurs_at close_tag text i.
Proof.
  intros (pre & mid & post & ->). eexists.
  apply (span_occurrences pre mid post).
Qed.

(** C9: on a text without a complete directive span, and so on a text
    in which the closing delimiter nowhere occurs, extraction returns
    none; a round whose stream ended normally with such a text emits
    the done event and returns, and the only call it made is the one to
    the model. *)
Theorem no_span_ends_loop (W : World) (client : ModelClient)
    (h : list message) (s : state) (n : nat) :
  let g := stream_generate W client h loop_stop true in
  let output := concat (yielded g) in
  (forall text, ~ has_span text -> extract_search_query text = None) /\
  (forall text,
     (forall i, ~ occurs_at close_tag text i) ->
     extract_search_query text = None) /\
  (raised g = None -> ~ has_span output ->
   agentic_loop W client (S n) h s
   = (Ok h, State (cache_file s) (calls s ++ [CallModel h])
               (events s ++ List.map Token (yielded g) ++ [Done]))).
Proof.
  intros g output. split; [|split].
  - intros text. apply extract_none_iff.
  - intros text Hno. apply extract_none_iff. intros Hs.
    destruct (close_occurs_of_span text Hs) as [i Hi]. by apply (Hno i).
  - intros Hr Hn.
    rewrite (agentic_loop_returns W client n h s Hr (no_span_no_search _ Hn)).
    unfold emit, after_tokens. cbn [cache_file calls events].
    by rewrite <- app_assoc.
Qed.

Lemma no_span_ends_loop_witness :
  extract_search_query
    (lit "<think>I will look this up: <search>capital of") = None /\
  exists s',
    agentic_loop dangling client 20 first_history start
    = (Ok first_history, s') /\
    calls s' = [CallModel first_history] /\
    last (events s') = Some Done.
Proof.
  destruct (no_span_ends_loop dangling client first_history start 19)
    as (Hx & _ & Hl).
  assert (Hn : extract_search_query
                 (lit "<think>I will look this up: <search>capital of") = None)
    by (vm_compute; reflexivity).
  split; [apply Hx; apply extract_none_iff; exact Hn|].
  eexists. split.
  - apply Hl; [vm_compute; reflexivity|].
    apply extract_none_iff. vm_compute; reflexivity.
  - split; vm_compute; reflexivity.
Defined.

Lemma lstrip_spaces s : forallb isspace s = true -> lstrip s = [].
Proof.
  induction s as [|c s IH]; simpl; [done|].
  destruct (isspace c); [exact IH | done].
Qed.

Lemma strip_spaces s : forallb isspace s = true -> strip s = [].
Proof.
  intros H. unfold strip, rstrip. rewrite (lstrip_spaces (rev s)); [done|].
  apply forallb_true_iff. apply forallb_true_iff in H.
  by apply Forall_rev.
Qed.

(** C10: when the span extraction acts on holds only whitespace, the
    extracted query is the empty string; a round whose stream ended
    normally with such a text emits the done event and returns, and the
    only call it made is the one to the model. *)
Theorem blank_directive_ends_loop (W : World) (client : ModelClient)
    (h : list message) (s : state) (n : nat) (o c : nat) :
  let g := stream_generate W client h loop_stop true in
  let output := concat (yielded g) in
  raised g = None ->
  last_span output o c ->
  forallb isspace (between output o c) = true ->
  extract_search_query output = Some [] /\
  agentic_loop W client (S n) h s
  = (Ok h, State (cache_file s) (calls s ++ [CallModel h])
              (events s ++ List.map Token (yielded g) ++ [Done])).
Proof.
  intros g output Hr Hs Hb.
  assert (He : extract_search_query output = Some []).
  { rewrite (extract_last_span _ _ _ Hs). by rewrite strip_spaces. }
  split; [exact He|].
  rewrite (agentic_loop_returns W client n h s Hr).
  - unfold emit, after_tokens. cbn [cache_file calls events].
    by rewrite <- app_assoc.
  - unfold wants_search. unfold output, g in He. by rewrite He.
Qed.

Lemma blank_directive_ends_loop_witness :
  extract_search_query (lit "<think><search>   </search>") = Some [] /\
  exists s',
    agentic_loop blank client 20 first_history start
    = (Ok first_history, s') /\
    calls s' = [CallModel first_history] /\
    last (events s') = Some Done.
Proof.
  destruct (blank_directive_ends_loop blank client first_history start 19 7 18)
    as (Hx & Hl).
  - vm_compute; reflexivity.
  - split; apply rfind_found;
      [apply Nat.le_refl | vm_compute; reflexivity
      | vm_compute; lia | vm_compute; reflexivity].
  - vm_compute; reflexivity.
  - split; [rewrite <- Hx; vm_compute; reflexivity|].
    eexists. split; [exact Hl|]. split; vm_compute; reflexivity.
Defined.

(** *** Search rounds *)

(** C4 (as amended): a round that searches appends exactly two assistant
    messages, the round's accumulated output and then the summary in its
    [<search_result>] span; the token event it emits last carries that
    span with one newline before and one after.  A round that returns
    appends nothing and emits the done event. *)
Theorem search_round_appends (W : World) (client : ModelClient)
    (h : list message) (s : state) (r : round_end) (s' : state) :
  agentic_round W client h s = (Ok r, s') ->
  let g := stream_generate W client h loop_stop true in
  let output := concat (yielded g) in
  match r with
  | Continue h' =>
      exists summary,
        h' = h ++ [assistant output; assistant (result_span summary)] /\
        events s' = events s ++ List.map Token (yielded g)
                      ++ [Token ([10%N] ++ result_span summary ++ [10%N])]
  | Returned h' =>
      h' = h /\
      events s' = events s ++ List.map Token (yielded g) ++ [Done]
  end.
Proof.
  intros E g output.
  destruct (agentic_round_cases W client h s)
    as [(e & extra & cf & E' & _)
       |[(_ & _ & E')|(summary & extra & cf & _ & _ & E' & _)]];
    rewrite E' in E; [discriminate| |].
  - injection E as <- <-. split; [done|].
    cbn [events emit after_tokens]. by rewrite <- app_assoc.
  - injection E as <- <-. exists summary. split; [done|].
    cbn [events emit after_tokens]. unfold result_token.
    by rewrite <- app_assoc.
Qed.

Lemma search_round_appends_witness :
  exists h' s',
    agentic_round searching client first_history start
    = (Ok (Continue h'), s') /\
    h' = first_history
           ++ [assistant (lit "<think>Let me check.<search>capital of France</search>");
               assistant (lit "<search_result>Paris has been the capital.</search_result>")] /\
    last (events s')
    = Some (Token (lit "
<search_result>Paris has been the capital.</search_result>
")).
Proof.
  destruct (agentic_round searching client first_history start)
    as [[[h'|h']|e] s'] eqn:E;
    [vm_compute in E; discriminate | | vm_compute in E; discriminate].
  exists h', s'. split; [reflexivity|].
  destruct (search_round_appends _ _ _ _ _ _ E) as (summary & Hh & He).
  vm_compute in E. injection E as Eh Es. subst h' s'.
  split; vm_compute; reflexivity.
Defined.

(** C4 as stated fails: the text appended to the history is not the text
    of the token event; the event has a newline on either side. *)
Lemma history_text_differs_from_token :
  ~ (forall (W : World) client h s h' s',
       agentic_round W client h s = (Ok (Continue h'), s') ->
       exists output wrapped,
         h' = h ++ [assistant output; assistant wrapped] /\
         last (events s') = Some (Token wrapped)).
Proof.
  intros H.
  destruct (agentic_round searching client first_history start)
    as [[[h'|h']|e] s'] eqn:E;
    [vm_compute in E; discriminate | | vm_compute in E; discriminate].
  destruct (H _ _ _ _ _ _ E) as (output & wrapped & Hh & Hl).
  vm_compute in E. injection E as Eh Es. subst h' s'.
  vm_compute in Hh. injection Hh as _ Hw. subst wrapped.
  vm_compute in Hl. discriminate.
Qed.

(** ** The task registry *)

(** From the empty registry the module starts with, no sequence of
    requests registers a task: the registry stays empty and no [/stop]
    is ever answered [stopping]. *)
Lemma serve_registry_empty W clients reqs :
  snd (serve W clients reqs active_tasks_init) = active_tasks_init /\
  forallb not_stopping (fst (serve W clients reqs active_tasks_init))
  = true.
Proof.
  induction reqs as [|req reqs [IH1 IH2]]; [done|].
  cbn [serve].
  assert (Hh : exists resp,
             handle W clients req active_tasks_init
             = (resp, active_tasks_init) /\ not_stopping resp = true).
  { destruct req as [q m mode files|task_id]; simpl.
    - eexists. split; [reflexivity|]. unfold infer.
      destruct (negb _); [done|].
      destruct (clients !! m); [|done].
      destruct (save_uploads W files); [|done].
      by repeat case_bool_decide.
    - eexists. split; [reflexivity|done]. }
  destruct Hh as (resp & -> & Hr).
  destruct (serve W clients reqs active_tasks_init) as [resps final].
  simpl in *. by rewrite Hr, IH2.
Qed.

(** C6 (the code misses it): a [/stop] request for a task id sent while
    an agentic search is streaming finds no task, sets no event and
    leaves the registry empty; the stream of the running request is the
    one it would have been without the request: every token, then the
    done event. *)
Theorem stop_does_not_cancel :
  serve answering clients
    [Infer question (lit "qwen") (lit "agentic_search") [];
     Stop (lit "task-1")] active_tasks_init
  = ([StreamingResponse
        (sse (stream_agentic_search answering client question []));
      StopResponse NotFound (lit "task-1")],
     active_tasks_init) /\
  events (snd (sse (stream_agentic_search answering client question [])
                 start))
  = [Token (lit "<think>"); Token (lit "Paris is");
     Token (lit "the capital."); Done].
Proof. split; vm_compute; reflexivity. Qed.

(** * Further properties *)

(** ** Extraction *)

Lemma lstrip_suffix s : exists sp, s = sp ++ lstrip s /\ forallb isspace sp = true.
Proof.
  induction s as [|c s (sp & Hs & Hsp)]; [by exists []|].
  simpl. destruct (isspace c) eqn:E.
  - exists (c :: sp). split; [simpl; congruence | simpl; by rewrite E].
  - by exists [].
Qed.

Lemma lstrip_head s c r : lstrip s = c :: r -> isspace c = false.
Proof.
  induction s as [|x s IH]; simpl; [done|].
  destruct (isspace x) eqn:E; [exact IH | congruence].
Qed.

Lemma rstrip_prefix s : exists sp, s = rstrip s ++ sp /\ forallb isspace sp = true.
Proof.
  unfold rstrip. destruct (lstrip_suffix (rev s)) as (sp & Hs & Hsp).
  exists (rev sp). split.
  - rewrite <- rev_app_distr, <- Hs. by rewrite rev_involutive.
  - apply forallb_true_iff. apply forallb_true_iff in Hsp. by apply Forall_rev.
Qed.

Lemma rstrip_last s c r : rstrip s = r ++ [c] -> isspace c = false.
Proof.
  unfold rstrip. intros H.
  apply (f_equal (@rev N)) in H. rewrite rev_involutive, rev_app_distr in H.
  simpl in H. by eapply lstrip_head.
Qed.

(** [s.strip()] is a slice of [s] between two runs of whitespace. *)
Lemma strip_middle s :
  exists l r, s = l ++ strip s ++ r /\
              forallb isspace l = true /\ forallb isspace r = true.
Proof.
  destruct (rstrip_prefix s) as (r & Hs & Hr).
  destruct (lstrip_suffix (rstrip s)) as (l & Hl & Hsl).
  exists l, r. split; [|done]. unfold strip. rewrite app_assoc, <- Hl.
  exact Hs.
Qed.

Lemma strip_trimmed s : trimmed (strip s).
Proof.
  split.
  - intros c r H. by eapply lstrip_head.
  - intros c r H. unfold strip in H.
    destruct (lstrip_suffix (rstrip s)) as (sp & Hs & _).
    rewrite H, app_assoc in Hs. by eapply rstrip_last.
Qed.

Lemma extract_some_last_span text q :
  extract_search_query text = Some q ->
  exists o c, last_span text o c /\ q = strip (between text o c).
Proof.
  intros H. destruct (extract_cases text) as [[Hn _]|(o & c & Hl & He)];
    [congruence|].
  exists o, c. split; [done | congruence].
Qed.

(** The query handed to the search never starts or ends with
    whitespace. *)
Theorem extract_search_query_trimmed (text q : str) :
  extract_search_query text = Some q -> trimmed q.
Proof.
  intros H. destruct (extract_some_last_span text q H) as (o & c & _ & ->).
  apply strip_trimmed.
Qed.

Lemma extract_search_query_trimmed_witness :
  extract_search_query (lit "<search>  capital of France </search>")
  = Some (lit "capital of France") /\
  trimmed (lit "capital of France").
Proof.
  assert (H : extract_search_query (lit "<search>  capital of France </search>")
              = Some (lit "capital of France")) by (vm_compute; reflexivity).
  split; [exact H|]. exact (extract_search_query_trimmed _ _ H).
Defined.

Lemma occurs_at_inside sub (l m r : str) i :
  occurs_at sub m i -> (i + length sub <= length m)%nat ->
  occurs_at sub (l ++ m ++ r) (length l + i).
Proof.
  intros [rest Hr] Hb. exists (rest ++ r).
  rewrite <- drop_drop, drop_app_length, drop_app_le by lia.
  by rewrite Hr, <- app_assoc.
Qed.

Lemma occurs_at_within sub (s : str) i :
  occurs_at sub s i -> (i + length sub <= length s)%nat \/ sub = [].
Proof.
  intros Ho. destruct sub as [|a sub]; [by right|]. left.
  by apply occurs_at_bound.
Qed.

(** The extracted query never contains the opening delimiter: the scan
    picks the opening delimiter nearest to the closing one. *)
Theorem extract_search_query_no_open_tag (text q : str) (i : nat) :
  extract_search_query text = Some q -> ~ occurs_at open_tag q i.
Proof.
  intros H Ho. destruct (extract_some_last_span text q H) as (o & c & Hl & ->).
  pose proof (last_span_bounds _ _ _ Hl) as [Hoc Hcl].
  pose proof (last_span_split _ _ _ Hl) as Hsplit.
  destruct (strip_middle (between text o c)) as (l & r & Hm & _ & _).
  assert (Hi : (i + length open_tag <= length (strip (between text o c)))%nat).
  { destruct (occurs_at_within _ _ _ Ho) as [?|?]; [done | discriminate]. }
  assert (Hlen : length (between text o c) = (c - (o + 8))%nat).
  { unfold between. rewrite open_tag_length, length_take, length_drop. lia. }
  assert (Hlm : (length l + length (strip (between text o c)) + length r
                 = c - (o + 8))%nat).
  { pose proof (f_equal length Hm) as HL. rewrite !length_app in HL. lia. }
  destruct Hl as [_ (_ & _ & Hlater)].
  apply (Hlater (o + 8 + length l + i)%nat).
  - lia.
  - rewrite open_tag_length in *. lia.
  - rewrite Hsplit. rewrite Hm.
    replace (take o text ++ open_tag ++ (l ++ strip (between text o c) ++ r)
               ++ close_tag ++ drop (c + 9) text)
      with ((take o text ++ open_tag ++ l) ++ strip (between text o c)
              ++ (r ++ close_tag ++ drop (c + 9) text))
      by (by rewrite <- !app_assoc).
    replace (o + 8 + length l + i)%nat
      with (length (take o text ++ open_tag ++ l) + i)%nat.
    + by apply occurs_at_inside.
    + rewrite !length_app, length_take, open_tag_length. lia.
Qed.

Lemma extract_search_query_no_open_tag_witness :
  extract_search_query (lit "<search>a<search>b</search>") = Some (lit "b") /\
  ~ occurs_at open_tag (lit "b") 0.
Proof.
  assert (H : extract_search_query (lit "<search>a<search>b</search>")
              = Some (lit "b")) by (vm_compute; reflexivity).
  split; [exact H|]. exact (extract_search_query_no_open_tag _ _ 0 H).
Defined.

(** Text in front of a text that holds a complete span does not change
    what is extracted. *)
Theorem extract_search_query_ignores_prefix (pre text : str) :
  has_span text ->
  extract_search_query (pre ++ text) = extract_search_query text.
Proof.
  intros Hs. destruct (has_span_last_span text Hs) as (o & c & Hl).
  rewrite (extract_last_span _ _ _ Hl).
  rewrite (extract_last_span _ _ _ (last_span_shift pre _ _ _ Hl)).
  by rewrite between_shift.
Qed.

Lemma extract_search_query_ignores_prefix_witness :
  extract_search_query
    (lit "I tried <search>this</search> before. " ++ lit "<search>that</search>")
  = extract_search_query (lit "<search>that</search>").
Proof.
  apply extract_search_query_ignores_prefix.
  exists [], (lit "that"), []. vm_compute; reflexivity.
Defined.

(** ** The search provider and the orchestrator *)

Lemma provider_hits_length W query top_k :
  0 <= top_k -> len (provider_hits W query top_k) <= top_k.
Proof.
  intros Hk. unfold provider_hits, len.
  destruct (serper_post W query) as [e|ok organic]; [simpl; lia|].
  destruct ok; [|simpl; lia].
  rewrite length_map. pose proof (slice_to_length organic top_k Hk). lia.
Qed.

Lemma fresh_results_length W query top_k :
  length (fresh_results W query top_k)
  = length (provider_hits W query top_k).
Proof. unfold fresh_results. by rewrite length_map. Qed.

(** [serper_search] never raises.  It asks the provider once and leaves
    cache and events alone; an exception or a non-OK status gives the
    empty list, and otherwise the hits are the first [top_k] organic
    entries in the provider's order, so at most [top_k] of them. *)
Theorem serper_search_total (W : World) (query api_key : str) (top_k : Z)
    (s : state) :
  exists hits,
    serper_search W query api_key top_k s
    = (Ok hits,
       State (cache_file s) (calls s ++ [CallSerper query]) (events s)) /\
    (0 <= top_k -> len hits <= top_k) /\
    match serper_post W query with
    | SerperRaises _ => hits = []
    | SerperReply false _ => hits = []
    | SerperReply true organic =>
        hits = List.map hit_of_organic (slice_to top_k organic)
    end.
Proof.
  exists (provider_hits W query top_k). split; [apply serper_search_run|].
  split; [apply provider_hits_length|].
  unfold provider_hits. destruct (serper_post W query) as [e|[] organic]; done.
Qed.

Lemma serper_search_total_witness :
  exists hits s',
    serper_search answering question [] 2 start = (Ok hits, s') /\
    List.map hit_url hits = [paris_url; slow_url].
Proof.
  destruct (serper_search_total answering question [] 2 start)
    as (hits & E & _ & Hh).
  eexists hits, _. split; [exact E|].
  unfold answering, world in Hh. cbn [serper_post] in Hh.
  rewrite Hh. vm_compute; reflexivity.
Defined.

Lemma slice_to_all {A} (l : list A) (k : Z) :
  len l <= k -> slice_to k l = l.
Proof.
  intros H. unfold len in H. rewrite slice_to_nonneg by lia.
  apply take_ge. lia.
Qed.

Lemma cache_hit_true s query top_k cached :
  loaded s !! query = Some cached -> len cached >= top_k ->
  cache_hit s query top_k = true.
Proof.
  intros H Hl. unfold cache_hit. rewrite H.
  destruct (Z.geb_spec (len cached) top_k); [done | lia].
Qed.

Lemma cache_hit_false_short s query top_k cached :
  loaded s !! query = Some cached -> len cached < top_k ->
  cache_hit s query top_k = false.
Proof.
  intros H Hl. unfold cache_hit. rewrite H.
  destruct (Z.geb_spec (len cached) top_k); [lia | done].
Qed.

Lemma cache_hit_inv s query top_k :
  cache_hit s query top_k = true ->
  exists cached, loaded s !! query = Some cached /\ len cached >= top_k.
Proof.
  unfold cache_hit. destruct (loaded s !! query) as [cached|]; [|done].
  destruct (Z.geb_spec (len cached) top_k); [|done]. intros _.
  exists cached. split; [done | lia].
Qed.

Lemma slice_to_len {A} (l : list A) (k : Z) :
  0 <= k -> len l >= k -> len (slice_to k l) = k.
Proof.
  intros Hk Hl. unfold len in *. rewrite slice_to_nonneg by done.
  rewrite length_take. lia.
Qed.

(** Asking again: when a call returned at least [top_k] results, the
    same call right after it returns the same list from the cache and
    changes nothing, so it reaches neither the provider nor the
    fetcher. *)
Theorem search_and_fetch_repeat (W : World) (query : str) (top_k : Z)
    (s s1 : state) (out : list page) :
  0 <= top_k ->
  search_and_fetch W query top_k s = (Ok out, s1) ->
  len out >= top_k ->
  search_and_fetch W query top_k s1 = (Ok out, s1).
Proof.
  intros Hk E Hl. rewrite search_and_fetch_run in E.
  destruct (cache_hit s query top_k) eqn:Eh.
  - injection E as <- <-. rewrite search_and_fetch_run, Eh. done.
  - injection E as <- <-. rewrite search_and_fetch_run.
    set (out := fresh_results W query top_k) in *.
    set (s1 := State _ _ _).
    assert (Hlo : loaded s1 !! query = Some out) by apply lookup_insert_eq.
    rewrite (cache_hit_true s1 query top_k out Hlo Hl), Hlo. simpl.
    rewrite slice_to_all; [done|].
    unfold out, len. rewrite fresh_results_length.
    apply provider_hits_length, Hk.
Qed.

Lemma search_and_fetch_repeat_witness :
  exists out s1,
    search_and_fetch answering question 3 start = (Ok out, s1) /\
    length (calls s1) = 4%nat /\
    search_and_fetch answering question 3 s1 = (Ok out, s1).
Proof.
  destruct (search_and_fetch answering question 3 start) as [[out|e] s1] eqn:E;
    [|vm_compute in E; discriminate].
  exists out, s1. split; [reflexivity|].
  assert (Hlen : len out >= 3 /\ length (calls s1) = 4%nat).
  { vm_compute in E. injection E as <- <-. split; [vm_compute; discriminate|].
    reflexivity. }
  split; [apply Hlen|].
  apply (search_and_fetch_repeat answering question 3 start s1 out);
    [lia | exact E | apply Hlen].
Defined.

(** A short answer is never served from the cache.  When a call
    returned fewer than [top_k] results, the list is in the cache under
    the query, and yet the next call for the query, whatever the
    provider and the pages answer by then (the world [W'] of that call),
    queries the provider and fetches the pages of its hits again; what
    it returns is built from these new answers and replaces the stored
    list. *)
Theorem search_and_fetch_short_requeries (W W' : World) (query : str)
    (top_k : Z) (s s1 : state) (out : list page) :
  0 <= top_k ->
  search_and_fetch W query top_k s = (Ok out, s1) ->
  len out < top_k ->
  loaded s1 !! query = Some out /\
  forall r2 s2,
    search_and_fetch W' query top_k s1 = (r2, s2) ->
    calls s2 = calls s1 ++ [CallSerper query]
                 ++ List.map CallJina
                      (fetched_urls (provider_hits W' query top_k)) /\
    (forall out2,
       r2 = Ok out2 ->
       out2 = fresh_results W' query top_k /\
       loaded s2 = <[query := out2]> (loaded s1)).
Proof.
  intros Hk E Hl. rewrite search_and_fetch_run in E.
  destruct (cache_hit s query top_k) eqn:Eh.
  - exfalso. injection E as <- <-.
    destruct (cache_hit_inv _ _ _ Eh) as (cached & Hc & Hlc).
    rewrite Hc in Hl. simpl in Hl.
    rewrite (slice_to_len cached top_k Hk Hlc) in Hl. lia.
  - injection E as <- <-.
    set (out := fresh_results W query top_k) in *.
    set (s1 := State _ _ _).
    assert (Hlo : loaded s1 !! query = Some out) by apply lookup_insert_eq.
    split; [exact Hlo|]. intros r2 s2.
    rewrite search_and_fetch_run.
    rewrite (cache_hit_false_short s1 query top_k out Hlo Hl).
    intros [= <- <-]. split; [done|]. by intros out2 [= <-].
Qed.

Lemma search_and_fetch_short_requeries_witness :
  exists out s1 s2,
    search_and_fetch answering question 5 start = (Ok out, s1) /\
    length out = 3%nat /\ loaded s1 !! question = Some out /\
    search_and_fetch offline question 5 s1 = (Ok [], s2) /\
    calls s2 = calls s1 ++ [CallSerper question] /\
    loaded s2 !! question = Some [].
Proof.
  destruct (search_and_fetch answering question 5 start) as [[out|e] s1] eqn:E;
    [|vm_compute in E; discriminate].
  assert (Hlen : len out < 5 /\ length out = 3%nat).
  { vm_compute in E. injection E as <- _. split; reflexivity. }
  destruct (search_and_fetch_short_requeries answering offline question 5
              start s1 out) as [Hs H2]; [lia | exact E | apply Hlen |].
  destruct (search_and_fetch offline question 5 s1) as [r2 s2] eqn:E2.
  destruct (H2 r2 s2 eq_refl) as [Hc Ho].
  assert (Er : r2 = Ok []).
  { destruct r2 as [out2|e].
    - destruct (Ho out2 eq_refl) as [-> _]. vm_compute; reflexivity.
    - destruct (search_and_fetch_effect offline question 5 s1)
        as (pages & cf & extra & E3 & _).
      rewrite E3 in E2. discriminate. }
  exists out, s1, s2. split; [reflexivity|]. split; [apply Hlen|].
  split; [exact Hs|]. subst r2. split; [exact E2|].
  split; [rewrite Hc; vm_compute; reflexivity|].
  destruct (Ho [] eq_refl) as [_ ->]. apply lookup_insert_eq.
Defined.

(** A call that returns has written at most the entry of its own
    query: every other cached query keeps its results, and events are
    not touched.  A cache file that is missing or unreadable is read as
    empty, so a call that returns on it leaves a file that holds the one
    query, with the list built from the provider's answers. *)
Theorem search_and_fetch_other_entries (W : World) (query : str)
    (top_k : Z) (s s1 : state) (out : list page) :
  search_and_fetch W query top_k s = (Ok out, s1) ->
  events s1 = events s /\
  (forall other, other <> query ->
     loaded s1 !! other = loaded s !! other) /\
  (cache_file s = FileMissing \/ cache_file s = FileUnreadable ->
   cache_file s1 = FileJson {[ query := out ]} /\
   out = fresh_results W query top_k).
Proof.
  rewrite search_and_fetch_run. destruct (cache_hit s query top_k) eqn:Eh.
  - intros [= <- <-]. split; [done|]. split; [done|].
    intros Hf. exfalso.
    destruct (cache_hit_inv _ _ _ Eh) as (cached & Hc & _).
    unfold loaded in Hc. destruct Hf as [H|H]; rewrite H in Hc; done.
  - intros [= <- <-]. split; [done|]. split.
    + intros other Hne. unfold loaded at 1. cbn [cache_file].
      by rewrite lookup_insert_ne.
    + intros Hf. split; [|done]. cbn [cache_file]. f_equal.
      unfold loaded. destruct Hf as [H|H]; rewrite H; apply insert_empty.
Qed.

Lemma search_and_fetch_other_entries_witness :
  exists out s1,
    search_and_fetch answering (lit "another question") 5 warm = (Ok out, s1) /\
    length out = 3%nat /\
    loaded s1 !! question = Some stored.
Proof.
  destruct (search_and_fetch answering (lit "another question") 5 warm)
    as [[out|e] s1] eqn:E; [|vm_compute in E; discriminate].
  destruct (search_and_fetch_other_entries answering (lit "another question")
              5 warm s1 out E) as (_ & Ho & _).
  exists out, s1. split; [reflexivity|]. split.
  - vm_compute in E. injection E as <- _. reflexivity.
  - rewrite Ho; [vm_compute; reflexivity | vm_compute; discriminate].
Defined.

Lemma fetched_urls_truthy hits u :
  u ∈ fetched_urls hits <->
  exists h, h ∈ hits /\ hit_url h = u /\ truthy u = true.
Proof.
  unfold fetched_urls. rewrite list_elem_of_In, in_map_iff. split.
  - intros (h & <- & Hin). apply filter_In in Hin as [Hin Ht].
    exists h. by rewrite list_elem_of_In.
  - intros (h & Hin & <- & Ht). exists h. split; [done|].
    apply filter_In. by rewrite <- list_elem_of_In.
Qed.

Lemma combine_result_shape (W : World) (all l : list hit) :
  (forall h, h ∈ l -> h ∈ all) ->
  Forall2
    (fun h p =>
       title p = hit_title h /\ url p = hit_url h /\
       snippet p = hit_snippet h /\
       content p = if truthy (hit_url h)
                   then fetch_page_content W (hit_url h) JINA_API_KEY
                   else [])
    l (List.map (combine_result (page_texts_of W (fetched_urls all))) l).
Proof.
  induction l as [|h l IH]; intros Hsub; [constructor|].
  rewrite map_cons. constructor.
  - unfold combine_result. cbn [title url snippet content].
    repeat split. unfold page_texts_of. rewrite collect_lookup, lookup_empty.
    destruct (truthy (hit_url h)) eqn:Et.
    + rewrite decide_True; [done|]. apply fetched_urls_truthy.
      exists h. split; [apply Hsub, list_elem_of_here | done].
    + rewrite decide_False; [done|]. intros Hin.
      apply fetched_urls_truthy in Hin as (h' & _ & Hu & Ht). congruence.
  - apply IH. intros h' Hin. by apply Hsub, list_elem_of_further.
Qed.

(** What a cache miss builds: one result per hit of the provider, in
    the provider's order, with title, URL and snippet copied; the
    content of a hit with a URL is what fetching that URL gave, and a
    hit without URL gets the empty content.  For a non-negative [top_k]
    there are at most [top_k] results. *)
Theorem fresh_results_shape (W : World) (query : str) (top_k : Z) :
  Forall2
    (fun h p =>
       title p = hit_title h /\ url p = hit_url h /\
       snippet p = hit_snippet h /\
       content p = if truthy (hit_url h)
                   then fetch_page_content W (hit_url h) JINA_API_KEY
                   else [])
    (provider_hits W query top_k) (fresh_results W query top_k) /\
  (0 <= top_k -> len (fresh_results W query top_k) <= top_k).
Proof.
  split.
  - unfold fresh_results. by apply combine_result_shape.
  - intros Hk. unfold len. rewrite fresh_results_length.
    by apply provider_hits_length.
Qed.

Lemma fresh_results_shape_witness :
  len (fresh_results answering question 2) <= 2 /\
  List.map url (fresh_results answering question 2) = [paris_url; slow_url].
Proof.
  destruct (fresh_results_shape answering question 2) as [_ H].
  split; [apply H; lia | vm_compute; reflexivity].
Defined.

(** ** Cache maintenance *)

Lemma filter_same_length {A} (f : A -> bool) (l : list A) :
  length (List.filter f l) = length l -> List.filter f l = l.
Proof.
  induction l as [|x l IH]; [done|]. simpl.
  pose proof (filter_length_le f l) as Hle.
  destruct (f x); simpl; intros H.
  - f_equal. apply IH. lia.
  - lia.
Qed.

Lemma clean_entry_lookup c ch q v :
  c !! q = Some v ->
  (fst (clean_entry (c, ch) (q, v))) !! q = Some (cleaned_results v) /\
  (forall q', q' <> q ->
     (fst (clean_entry (c, ch) (q, v))) !! q' = c !! q') /\
  snd (clean_entry (c, ch) (q, v))
  = ch || negb (length (cleaned_results v) =? length v)%nat.
Proof.
  intros Hc. unfold clean_entry. cbn [fst snd].
  destruct (Nat.eqb_spec (length (cleaned_results v)) (length v)) as [He|Hne];
    cbn [negb fst snd].
  - unfold cleaned_results in *. rewrite (filter_same_length _ _ He).
    split; [done|]. split; [done|]. by rewrite orb_false_r.
  - split; [apply lookup_insert_eq|]. split.
    + intros q' Hq. by rewrite lookup_insert_ne.
    + by rewrite orb_true_r.
Qed.

Lemma clean_fold (l : list (str * list page)) c ch :
  NoDup (l.*1) ->
  (forall q v, (q, v) ∈ l -> c !! q = Some v) ->
  (forall q,
     fst (foldl clean_entry (c, ch) l) !! q
     = if decide (q ∈ l.*1) then cleaned_results <$> c !! q else c !! q) /\
  snd (foldl clean_entry (c, ch) l)
  = ch || existsb (fun e => negb (length (cleaned_results (snd e))
                                  =? length (snd e))%nat) l.
Proof.
  revert c ch. induction l as [|[q0 v0] l IH]; intros c ch Hnd Hc.
  - split; [|by rewrite orb_false_r]. intros q.
    rewrite decide_False; [done | apply not_elem_of_nil].
  - cbn [foldl]. apply NoDup_cons in Hnd as [Hnin Hnd]. cbn [fmap] in Hnin.
    assert (Hc0 : c !! q0 = Some v0) by apply Hc, list_elem_of_here.
    destruct (clean_entry_lookup c ch q0 v0 Hc0) as (H0 & Hother & Hch).
    destruct (clean_entry (c, ch) (q0, v0)) as [c1 ch1] eqn:E1.
    cbn [fst snd] in *.
    destruct (IH c1 ch1 Hnd) as [Hl Hs].
    { intros q v Hin. rewrite Hother.
      - by apply Hc, list_elem_of_further.
      - intros ->. apply Hnin. apply list_elem_of_fmap. by exists (q0, v). }
    split.
    + intros q. rewrite Hl. cbn [fmap list_fmap].
      destruct (decide (q = q0)) as [->|Hne].
      * rewrite decide_False by done.
        rewrite decide_True by apply list_elem_of_here.
        by rewrite H0, Hc0.
      * rewrite Hother by done.
        destruct (decide (q ∈ l.*1)).
        -- rewrite decide_True; [done | by apply list_elem_of_further].
        -- rewrite decide_False; [done|].
           intros Hin. apply elem_of_cons in Hin as [?|?]; done.
    + rewrite Hs, Hch. cbn [existsb snd]. by rewrite orb_assoc.
Qed.

Lemma changed_false_clean (m : gmap str (list page)) :
  existsb (fun e => negb (length (cleaned_results (snd e))
                          =? length (snd e))%nat) (map_to_list m) = false ->
  cleaned_results <$> m = m.
Proof.
  intros H. apply map_eq. intros q. rewrite lookup_fmap.
  destruct (m !! q) as [v|] eqn:E; [|done]. simpl. f_equal.
  apply filter_same_length.
  apply elem_of_map_to_list in E.
  destruct (Nat.eqb_spec (length (cleaned_results v)) (length v)); [done|].
  exfalso. apply not_true_iff_false in H. apply H.
  apply existsb_exists. exists (q, v). split; [by apply list_elem_of_In|].
  cbn [snd]. by apply negb_true_iff, Nat.eqb_neq.
Qed.

Lemma clean_cache_run s :
  clean_cache s =
  (Ok tt,
   if existsb (fun e => negb (length (cleaned_results (snd e))
                              =? length (snd e))%nat)
              (map_to_list (loaded s))
   then State (FileJson (cleaned_results <$> loaded s)) (calls s) (events s)
   else s).
Proof.
  unfold clean_cache, bind. rewrite load_cache_run.
  destruct (clean_fold (map_to_list (loaded s)) (loaded s) false)
    as [Hl Hs].
  { apply NoDup_fst_map_to_list. }
  { intros q v. apply elem_of_map_to_list. }
  destruct (foldl clean_entry (loaded s, false) (map_to_list (loaded s)))
    as [c' changed].
  cbn [fst snd] in *. rewrite orb_false_l in Hs. rewrite Hs.
  destruct (existsb _ _); [|done].
  unfold save_cache. f_equal. f_equal. f_equal.
  apply map_eq. intros q. rewrite Hl, lookup_fmap.
  destruct (decide (q ∈ (map_to_list (loaded s)).*1)) as [|Hnin]; [done|].
  destruct (loaded s !! q) as [v|] eqn:E; [|done].
  exfalso. apply Hnin. apply list_elem_of_fmap. exists (q, v).
  split; [done | by apply elem_of_map_to_list].
Qed.

Lemma cleaned_results_spec results item :
  item ∈ cleaned_results results <->
  item ∈ results /\ ~ failure_marked item.
Proof.
  unfold cleaned_results, failure_marked.
  rewrite !list_elem_of_In, filter_In, negb_true_iff.
  split; intros [H1 H2]; (split; [done|]).
  - congruence.
  - by destruct (startswith (content item) error_marker).
Qed.

Lemma cleaned_results_id results :
  (forall item, item ∈ results -> ~ failure_marked item) ->
  cleaned_results results = results.
Proof.
  intros H. induction results as [|x l IH]; [done|].
  unfold cleaned_results in *. cbn [List.filter].
  assert (Hx : startswith (content x) error_marker = false).
  { specialize (H x (list_elem_of_here _ _)). unfold failure_marked in H.
    by destruct (startswith (content x) error_marker). }
  rewrite Hx. cbn [negb]. f_equal. apply IH.
  intros item Hin. by apply H, list_elem_of_further.
Qed.

Lemma clean_cache_loaded s :
  loaded (snd (clean_cache s)) = cleaned_results <$> loaded s.
Proof.
  rewrite clean_cache_run. cbn [snd].
  destruct (existsb _ _) eqn:E; [done|].
  by rewrite (changed_false_clean _ E).
Qed.

Lemma clean_cache_effect (s : state) :
  exists s',
    clean_cache s = (Ok tt, s') /\
    loaded s' = cleaned_results <$> loaded s /\
    dom (loaded s') = dom (loaded s) /\
    calls s' = calls s /\ events s' = events s /\
    (forall q results item,
       loaded s' !! q = Some results -> item ∈ results ->
       ~ failure_marked item).
Proof.
  pose proof (clean_cache_loaded s) as Hl.
  rewrite clean_cache_run in *. cbn [snd] in Hl. eexists.
  split; [reflexivity|]. split; [exact Hl|]. split; [|split; [|split]].
  - rewrite Hl. apply dom_fmap_L.
  - by destruct (existsb _ _).
  - by destruct (existsb _ _).
  - intros q results item Hq Hin. rewrite Hl, lookup_fmap in Hq.
    destruct (loaded s !! q) as [old|]; [|done]. injection Hq as <-.
    by apply cleaned_results_spec in Hin as [_ ?].
Qed.

(** A run of [clean_cache] that returns has touched neither the call
    log nor the events, and has left every cached list as the old list
    without its failure-marked results, in the old order: the same
    queries are cached, and no cached result starts with [[Error]]. *)
Theorem clean_cache_removes_failures (s s' : state) :
  clean_cache s = (Ok tt, s') ->
  loaded s' = cleaned_results <$> loaded s /\
  dom (loaded s') = dom (loaded s) /\
  calls s' = calls s /\ events s' = events s /\
  (forall q results item,
     loaded s' !! q = Some results -> item ∈ results ->
     ~ failure_marked item).
Proof.
  intros E. destruct (clean_cache_effect s) as (s1 & E1 & H).
  rewrite E in E1. injection E1 as <-. exact H.
Qed.

Lemma clean_cache_removes_failures_witness :
  exists s',
    clean_cache warm = (Ok tt, s') /\
    loaded s' !! question
    = Some [Page (lit "Paris") paris_url (lit "Capital")
                 (lit "Paris is the capital.")].
Proof.
  destruct (clean_cache warm) as [[[]|e] s'] eqn:E;
    [|vm_compute in E; discriminate].
  destruct (clean_cache_removes_failures warm s' E) as (Hl & _).
  exists s'. split; [reflexivity|]. rewrite Hl, lookup_fmap.
  vm_compute; reflexivity.
Defined.

Lemma clean_cache_unchanged (s : state) :
  (forall q results item,
     loaded s !! q = Some results -> item ∈ results ->
     ~ failure_marked item) ->
  clean_cache s = (Ok tt, s).
Proof.
  intros H. rewrite clean_cache_run.
  destruct (existsb _ _) eqn:E; [|done]. exfalso.
  apply existsb_exists in E as ([q v] & Hin & Hne). cbn [snd] in Hne.
  apply list_elem_of_In, elem_of_map_to_list in Hin.
  rewrite cleaned_results_id in Hne.
  - by rewrite Nat.eqb_refl in Hne.
  - intros item. by apply (H q).
Qed.

(** A cache without failure-marked results is left exactly as it is:
    nothing is written, and a missing file is not created. *)
Theorem clean_cache_noop (s : state) :
  (forall q results item,
     loaded s !! q = Some results -> item ∈ results ->
     ~ failure_marked item) ->
  clean_cache s = (Ok tt, s).
Proof. apply clean_cache_unchanged. Qed.

Lemma clean_cache_noop_witness : clean_cache tidy = (Ok tt, tidy).
Proof.
  apply clean_cache_noop. intros q results item Hq Hin.
  unfold tidy, loaded, initial_state in Hq. cbn [cache_file] in Hq.
  apply lookup_singleton_Some in Hq as [_ <-].
  apply list_elem_of_singleton in Hin as ->.
  unfold failure_marked. vm_compute. discriminate.
Defined.

(** Cleaning twice is cleaning once: the second run changes nothing. *)
Theorem clean_cache_idempotent (s : state) :
  clean_cache (snd (clean_cache s)) = (Ok tt, snd (clean_cache s)).
Proof.
  destruct (clean_cache_effect s) as (s' & E & _ & _ & _ & _ & H).
  rewrite E. cbn [snd]. by apply clean_cache_unchanged.
Qed.



(** ** The summarizer's headings *)




(** ** The page fetcher's text *)

(** A code point does not occur in a literal. *)
Ltac absent :=
  let H := fresh in
  vm_compute; intros H;
  repeat (apply elem_of_cons in H as [H|H]; [discriminate|]);
  by apply not_elem_of_nil in H.

Lemma sub_url_artifacts_skip k s :
  sub_url_artifacts k s = sub_url_artifacts 0 (drop k s).
Proof.
  revert k. induction s as [|c s IH]; intros k.
  - by rewrite drop_nil.
  - destruct k as [|k]; [done|]. cbn [sub_url_artifacts drop]. apply IH.
Qed.

Lemma sub_url_artifacts_sublist k s : sublist (sub_url_artifacts k s) s.
Proof.
  revert k. induction s as [|c s IH]; intros k; [done|].
  cbn [sub_url_artifacts]. destruct k as [|k].
  - destruct (match_url_artifact (c :: s)).
    + apply sublist_cons, IH.
    + apply sublist_skip, IH.
  - apply sublist_cons, IH.
Qed.

Lemma strip_sublist s : sublist (strip s) s.
Proof.
  destruct (strip_middle s) as (l & r & Hs & _).
  rewrite Hs at 2. apply sublist_inserts_l, sublist_inserts_r. done.
Qed.

(** A page that was served (status 200) comes back as the service's
    text with characters removed and none added or reordered, and
    without whitespace at either end. *)
Theorem fetch_page_content_served (W : World) (url key text : str) :
  jina_get W url = JinaReply 200 text ->
  sublist (fetch_page_content W url key) text /\
  trimmed (fetch_page_content W url key).
Proof.
  intros H. unfold fetch_page_content. rewrite H. cbn [N.eqb Pos.eqb].
  split; [|apply strip_trimmed].
  etrans; [apply strip_sublist | apply sub_url_artifacts_sublist].
Qed.

Lemma fetch_page_content_served_witness :
  fetch_page_content answering paris_url []
  = lit "Paris [map] is the capital." /\
  trimmed (fetch_page_content answering paris_url []).
Proof.
  split; [vm_compute; reflexivity|].
  apply (fetch_page_content_served answering paris_url []
           (lit "Paris [map](https://maps.example) is the capital. ")).
  vm_compute; reflexivity.
Defined.

(** A fetch that is answered with another status gives the failure
    marker, the status in decimal, and at most the first 200 characters
    of the body. *)
Theorem fetch_page_content_status (W : World) (url key text : str)
    (status_code : N) :
  jina_get W url = JinaReply status_code text ->
  status_code <> 200%N ->
  exists body rest,
    fetch_page_content W url key
    = lit "[Error] Jina error " ++ str_of_N status_code ++ lit ": " ++ body /\
    text = body ++ rest /\ len body <= 200.
Proof.
  intros H Hne. unfold fetch_page_content. rewrite H.
  destruct (N.eqb_spec status_code 200); [done|].
  exists (slice_to 200 text), (drop (Z.to_nat 200) text).
  split; [done|]. rewrite slice_to_nonneg by lia.
  split; [by rewrite take_drop|]. unfold len. rewrite length_take. lia.
Qed.

Lemma fetch_page_content_status_witness :
  exists body rest,
    fetch_page_content answering missing_url []
    = lit "[Error] Jina error " ++ lit "404" ++ lit ": " ++ body /\
    lit "Not Found" = body ++ rest /\ len body <= 200.
Proof.
  apply (fetch_page_content_status answering missing_url []
           (lit "Not Found") 404); [vm_compute; reflexivity | discriminate].
Defined.

Lemma url_head_opener opener s :
  opener ∉ s -> url_head opener s = None.
Proof.
  intros Hn. destruct s as [|c r]; [done|]. unfold url_head.
  destruct (N.eqb_spec c opener) as [->|]; [|done].
  exfalso. apply Hn, list_elem_of_here.
Qed.

Lemma sub_url_artifacts_plain s :
  40%N ∉ s -> 91%N ∉ s -> sub_url_artifacts 0 s = s.
Proof.
  induction s as [|c s IH]; intros H1 H2; [done|].
  cbn [sub_url_artifacts]. unfold match_url_artifact.
  assert (Hc1 : (c =? 40)%N = false).
  { apply N.eqb_neq. intros ->. apply H1, list_elem_of_here. }
  assert (Hc2 : (c =? 91)%N = false).
  { apply N.eqb_neq. intros ->. apply H2, list_elem_of_here. }
  unfold url_head. rewrite Hc1, Hc2. cbn [mbind option_bind].
  f_equal. apply IH.
  - intros Hin. by apply H1, list_elem_of_further.
  - intros Hin. by apply H2, list_elem_of_further.
Qed.

Lemma lazy_until_found closer u b :
  closer ∉ u -> 10%N ∉ u -> lazy_until closer (u ++ closer :: b) = Some b.
Proof.
  induction u as [|c u IH]; intros H1 H2; cbn [lazy_until app].
  - by rewrite N.eqb_refl.
  - assert (Hc1 : (c =? closer)%N = false).
    { apply N.eqb_neq. intros ->. apply H1, list_elem_of_here. }
    assert (Hc2 : (c =? 10)%N = false).
    { apply N.eqb_neq. intros ->. apply H2, list_elem_of_here. }
    rewrite Hc1, Hc2. apply IH.
    + intros Hin. by apply H1, list_elem_of_further.
    + intros Hin. by apply H2, list_elem_of_further.
Qed.

(** The cleaning of a served page only deletes: its result is the text
    with characters removed, and text that holds neither an opening
    parenthesis nor an opening square bracket is returned unchanged. *)
Theorem sub_url_artifacts_only_deletes (s : str) :
  sublist (sub_url_artifacts 0 s) s /\
  (40%N ∉ s -> 91%N ∉ s -> sub_url_artifacts 0 s = s).
Proof. split; [apply sub_url_artifacts_sublist | apply sub_url_artifacts_plain]. Qed.

Lemma sub_url_artifacts_only_deletes_witness :
  sub_url_artifacts 0 (lit "plain text, no links") = lit "plain text, no links".
Proof.
  apply (sub_url_artifacts_only_deletes (lit "plain text, no links")); absent.
Defined.

(** What the cleaning removes: in text that has no bracket before it, a
    parenthesised [https:] target that runs to its closing parenthesis
    on one line disappears, and the text in front of it is kept. *)
Theorem sub_url_artifacts_removes_target (a u b : str) :
  40%N ∉ a -> 91%N ∉ a -> 41%N ∉ u -> 10%N ∉ u ->
  sub_url_artifacts 0 (a ++ lit "(https:" ++ u ++ [41%N] ++ b)
  = a ++ sub_url_artifacts 0 b.
Proof.
  intros Ha1 Ha2 Hu1 Hu2. induction a as [|c a IH].
  - change (lit "(https:") with (40%N :: lit "https:").
    cbn [app sub_url_artifacts].
    assert (Hm : match_url_artifact
                   (40%N :: lit "https:" ++ u ++ 41%N :: b) = Some b).
    { unfold match_url_artifact. cbn [url_head N.eqb Pos.eqb].
      change (startswith (lit "https:" ++ u ++ 41%N :: b) (lit "https:"))
        with true. cbv iota.
      change (drop 6 (lit "https:" ++ u ++ 41%N :: b)) with (u ++ 41%N :: b).
      cbn [mbind option_bind]. by rewrite lazy_until_found. }
    rewrite Hm. rewrite sub_url_artifacts_skip. f_equal.
    change (lit "https:" ++ u ++ 41%N :: b)
      with ([104; 116; 116; 112; 115; 58]%N ++ u ++ 41%N :: b).
    rewrite !length_app. cbn [length].
    replace (6 + (length u + S (length b)) - length b)%nat
      with (6 + (length u + 1))%nat by lia.
    rewrite <- drop_drop. cbn [drop app].
    rewrite drop_0, <- drop_drop, drop_app_length. done.
  - cbn [app sub_url_artifacts]. unfold match_url_artifact.
    assert (Hc1 : (c =? 40)%N = false).
    { apply N.eqb_neq. intros ->. apply Ha1, list_elem_of_here. }
    assert (Hc2 : (c =? 91)%N = false).
    { apply N.eqb_neq. intros ->. apply Ha2, list_elem_of_here. }
    unfold url_head. rewrite Hc1, Hc2. cbn [mbind option_bind].
    f_equal. apply IH.
    + intros Hin. by apply Ha1, list_elem_of_further.
    + intros Hin. by apply Ha2, list_elem_of_further.
Qed.

Lemma sub_url_artifacts_removes_target_witness :
  sub_url_artifacts 0
    (lit "See " ++ lit "(https:" ++ lit "//maps.example" ++ [41%N]
       ++ lit " now")
  = lit "See  now".
Proof.
  rewrite sub_url_artifacts_removes_target; [vm_compute; reflexivity|absent..].
Defined.

(** ** The model client *)

Lemma format_part_formats W c v : format_part W c = Ok v <-> formats W c v.
Proof.
  destruct c as [text|path]; simpl.
  - split; [by intros [= <-] | by intros ->].
  - destruct (image_b64 W path) as [b|e].
    + split.
      * intros [= <-]. by exists b.
      * intros (b' & [= <-] & ->). done.
    + split; [done | by intros (b & ? & _)].
Qed.

Lemma format_parts_formats W cs vs :
  format_parts W cs = Ok vs <-> Forall2 (formats W) cs vs.
Proof.
  revert vs. induction cs as [|c cs IH]; intros vs; cbn [format_parts].
  - split; [intros [= <-]; constructor | by inversion 1].
  - destruct (format_part W c) as [v|e] eqn:Ec.
    + destruct (format_parts W cs) as [vs'|e] eqn:Ecs.
      * split.
        -- intros [= <-]. constructor; [by apply format_part_formats|].
           by apply IH.
        -- inversion 1 as [|? v' ? vs'' Hv Hvs]; subst.
           apply format_part_formats in Hv. apply IH in Hvs. congruence.
      * split; [done|]. inversion 1 as [|? v' ? vs'' Hv Hvs]; subst.
        apply IH in Hvs. congruence.
    + split; [done|]. inversion 1 as [|? v' ? vs'' Hv Hvs]; subst.
      apply format_part_formats in Hv. congruence.
Qed.

(** [prepare_messages] succeeds exactly with the part-by-part
    translation: as many messages, in order and with their roles, every
    text part verbatim and every image part as a data URL of the file's
    bytes, with [image/png] where the type cannot be guessed. *)
Theorem prepare_messages_formats (W : World) (ms : list message)
    (vms : list vmessage) :
  prepare_messages W ms = Ok vms <->
  Forall2 (fun m vm => vrole vm = msg_role m /\
                       Forall2 (formats W) (msg_content m) (vcontent vm))
          ms vms.
Proof.
  revert vms. induction ms as [|m ms IH]; intros vms; cbn [prepare_messages].
  - split; [intros [= <-]; constructor | by inversion 1].
  - destruct (format_parts W (msg_content m)) as [vs|e] eqn:Ec.
    + destruct (prepare_messages W ms) as [vms'|e] eqn:Ems.
      * split.
        -- intros [= <-]. constructor; [|by apply IH].
           split; [done | by apply format_parts_formats].
        -- inversion 1 as [|? vm ? vms'' [Hr Hv] Hvs]; subst.
           apply format_parts_formats in Hv. apply IH in Hvs.
           destruct vm as [r vc]. cbn in *. congruence.
      * split; [done|]. inversion 1 as [|? vm ? vms'' [Hr Hv] Hvs]; subst.
        apply IH in Hvs. congruence.
    + split; [done|]. inversion 1 as [|? vm ? vms'' [Hr Hv] Hvs]; subst.
      apply format_parts_formats in Hv. congruence.
Qed.

Lemma prepare_messages_formats_witness :
  prepare_messages answering
    (initial_history question [lit "/tmp/map.png"])
  = Ok [VMessage User
          [VText (system_instruction ++ question);
           VImageUrl (lit "data:image/png;base64,iVBORw0KGgo=")]].
Proof.
  apply prepare_messages_formats.
  constructor; [|constructor]. split; [reflexivity|].
  constructor; [reflexivity|]. constructor; [|constructor].
  exists (lit "iVBORw0KGgo="). split; vm_compute; reflexivity.
Defined.

Lemma format_parts_unreadable W cs path e0 :
  ImagePathPart path ∈ cs -> image_b64 W path = Raise e0 ->
  exists e, format_parts W cs = Raise e.
Proof.
  intros Hin Hb. induction cs as [|c cs IH]; [by apply not_elem_of_nil in Hin|].
  cbn [format_parts]. apply elem_of_cons in Hin as [<-|Hin].
  - simpl. rewrite Hb. by eexists.
  - destruct (format_part W c); [|by eexists].
    destruct (IH Hin) as [e ->]. by eexists.
Qed.

Lemma prepare_messages_unreadable W ms m path e0 :
  m ∈ ms -> ImagePathPart path ∈ msg_content m ->
  image_b64 W path = Raise e0 ->
  exists e, prepare_messages W ms = Raise e.
Proof.
  intros Hm Hp Hb. induction ms as [|m' ms IH];
    [by apply not_elem_of_nil in Hm|].
  cbn [prepare_messages]. apply elem_of_cons in Hm as [<-|Hm].
  - destruct (format_parts_unreadable W _ _ _ Hp Hb) as [e ->]. by eexists.
  - destruct (format_parts W (msg_content m')); [|by eexists].
    destruct (IH Hm) as [e ->]. by eexists.
Qed.

Lemma sse_run (m : M unit) s :
  sse m s = match m s with
            | (Ok _, s') => (Ok tt, s')
            | (Raise e, s') => (Ok tt, emit (Error e) s')
            end.
Proof. unfold sse. by destruct (m s) as [[[]|e] s']. Qed.

(** An upload that cannot be read fails the request before anything is
    streamed: the client raises before its first token, and the caller
    of the agentic search receives one error event and nothing else. *)
Theorem unreadable_image_fails_first (W : World) (client : ModelClient)
    (query : str) (image_paths : list str) (path : str) (e0 : exn)
    (s : state) :
  path ∈ image_paths -> image_b64 W path = Raise e0 ->
  exists e,
    stream_generate W client (initial_history query image_paths) loop_stop true
    = Generated [] (Some e) /\
    sse (stream_agentic_search W client query image_paths) s
    = (Ok tt,
       State (cache_file s)
             (calls s ++ [CallModel (initial_history query image_paths)])
             (events s ++ [Error e])).
Proof.
  intros Hin Hb.
  destruct (prepare_messages_unreadable W (initial_history query image_paths)
              (Message User ([TextPart (system_instruction ++ query)]
                               ++ List.map ImagePathPart image_paths))
              path e0) as [e He].
  { apply list_elem_of_here. }
  { cbn [msg_content]. apply elem_of_app. right.
    apply list_elem_of_fmap. by exists path. }
  { exact Hb. }
  exists e.
  assert (Hg : stream_generate W client (initial_history query image_paths)
                 loop_stop true = Generated [] (Some e)).
  { unfold stream_generate. by rewrite He. }
  split; [exact Hg|].
  rewrite sse_run. unfold stream_agentic_search, max_rounds.
  unfold bind at 1. cbn [agentic_loop]. unfold bind at 1.
  rewrite agentic_round_run, Hg. cbn [raised yielded].
  unfold emit, after_tokens. cbn [List.map cache_file calls events].
  by rewrite app_nil_r.
Qed.

Lemma unreadable_image_fails_first_witness :
  events (snd (sse (stream_agentic_search unreadable client question
                      [lit "/tmp/map.png"]) start))
  = [Error (lit "No such file or directory")].
Proof.
  destruct (unreadable_image_fails_first unreadable client question
              [lit "/tmp/map.png"] (lit "/tmp/map.png")
              (lit "No such file or directory") start) as (e & Hg & ->).
  - apply list_elem_of_here.
  - reflexivity.
  - vm_compute in Hg. injection Hg as <-. reflexivity.
Defined.

(** A model server that answers with a status other than 200 costs the
    caller of the agentic search nothing but the [<think>] token the
    client sends ahead: that token, then one error event naming the
    status and the body, and no done event. *)
Theorem server_failure_events (W : World) (client : ModelClient)
    (query : str) (image_paths : list str) (vms : list vmessage)
    (status_code : N) (text : str) (lines : list str) (s : state) :
  prepare_messages W (initial_history query image_paths) = Ok vms ->
  vllm_post W (base_url client)
    (Payload (model_name client) vms loop_stop true)
  = VllmReply status_code text lines ->
  status_code <> 200%N ->
  sse (stream_agentic_search W client query image_paths) s
  = (Ok tt,
     State (cache_file s)
           (calls s ++ [CallModel (initial_history query image_paths)])
           (events s ++ [Token (lit "<think>");
                         Error (lit "vLLM request failed: "
                                  ++ str_of_N status_code ++ lit ", "
                                  ++ text)])).
Proof.
  intros Hp Hv Hne.
  assert (Hg : stream_generate W client (initial_history query image_paths)
                 loop_stop true
               = Generated [lit "<think>"]
                   (Some (lit "vLLM request failed: "
                            ++ str_of_N status_code ++ lit ", " ++ text))).
  { unfold stream_generate. rewrite Hp, Hv.
    destruct (N.eqb_spec status_code 200); done. }
  rewrite sse_run. unfold stream_agentic_search, max_rounds.
  unfold bind at 1. cbn [agentic_loop]. unfold bind at 1.
  rewrite agentic_round_run, Hg. cbn [raised yielded].
  unfold emit, after_tokens. cbn [List.map cache_file calls events].
  by rewrite <- app_assoc.
Qed.

Lemma server_failure_events_witness :
  events (snd (sse (stream_agentic_search overloaded client question []) start))
  = [Token (lit "<think>"); Error (lit "vLLM request failed: 503, busy")].
Proof.
  erewrite (server_failure_events overloaded client question [] _ 503
              (lit "busy") [] start);
    [vm_compute; reflexivity | reflexivity | reflexivity | discriminate].
Defined.

(** ** The server's stream *)

Lemma stream_lines_cons W line rest :
  stream_lines W (line :: rest) =
  if negb (data_line line) then stream_lines W rest
  else
    let data := strip (slice_from (len data_prefix) line) in
    if bool_decide (data = done_marker) then []
    else match chunk_delta W data with
         | Some delta =>
             if truthy delta then delta :: stream_lines W rest
             else stream_lines W rest
         | None => stream_lines W rest
         end.
Proof.
  cbn [stream_lines]. unfold data_line. by destruct (truthy line).
Qed.

(** The client reads the server's lines up to the first [data: [DONE]]
    and nothing after it; lines that are empty or do not start with
    [data: ] make no difference; and no token it yields from a chunk is
    empty. *)
Theorem stream_lines_reads (W : World) (lines : list str) :
  (forall before line after,
     lines = before ++ line :: after -> done_line line ->
     stream_lines W lines = stream_lines W before) /\
  stream_lines W lines = stream_lines W (List.filter data_line lines) /\
  Forall (fun token => token <> []) (stream_lines W lines).
Proof.
  split; [|split].
  - intros before line after -> (Ht & Hs & Hd).
    induction before as [|x before IH].
    + cbn [app]. rewrite stream_lines_cons. unfold data_line.
      rewrite Ht, Hs. cbn [andb negb]. cbv zeta.
      by rewrite bool_decide_true.
    + cbn [app]. rewrite !stream_lines_cons, IH. done.
  - induction lines as [|x lines IH]; [done|].
    cbn [List.filter]. rewrite stream_lines_cons.
    destruct (data_line x) eqn:Ex; cbn [negb]; [|exact IH].
    rewrite stream_lines_cons, Ex. cbn [negb]. cbv zeta.
    by rewrite IH.
  - induction lines as [|x lines IH]; [constructor|].
    rewrite stream_lines_cons.
    destruct (negb (data_line x)); [exact IH|]. cbv zeta.
    destruct (bool_decide _); [constructor|].
    destruct (chunk_delta W _) as [delta|]; [|exact IH].
    destruct delta as [|c delta]; [exact IH|].
    constructor; [done | exact IH].
Qed.

Lemma stream_lines_reads_witness :
  stream_lines answering
    ([lit "data: Paris is"; lit ""; lit "data:  the capital."]
       ++ lit "data:   [DONE]  " :: [lit "data: ignored"])
  = [lit "Paris is"; lit "the capital."].
Proof.
  destruct (stream_lines_reads answering
              ([lit "data: Paris is"; lit ""; lit "data:  the capital."]
                 ++ lit "data:   [DONE]  " :: [lit "data: ignored"]))
    as [H _].
  rewrite (H _ _ _ eq_refl); [vm_compute; reflexivity|].
  repeat split; vm_compute; reflexivity.
Defined.

(** ** The workflows behind [/infer] *)

Lemma yield_tokens_run tokens s :
  yield_tokens tokens s
  = (Ok tt,
     State (cache_file s) (calls s) (events s ++ List.map Token tokens)).
Proof.
  revert s. induction tokens as [|t tokens IH]; intros s; cbn [yield_tokens].
  - unfold ret. cbn [List.map]. rewrite app_nil_r. by destruct s.
  - unfold bind, yield. rewrite IH. cbn [cache_file calls events List.map].
    by rewrite <- app_assoc.
Qed.

Lemma stream_answer_run W client messages s :
  let g := stream_generate W client messages None false in
  stream_answer W client messages s =
  (match raised g with Some e => Raise e | None => Ok tt end,
   State (cache_file s) (calls s ++ [CallModel messages])
         (events s ++ List.map Token (yielded g)
            ++ match raised g with Some _ => [] | None => [Done] end)).
Proof.
  intros g. unfold stream_answer, bind, log. fold g.
  rewrite yield_tokens_run. cbn [cache_file calls events].
  destruct (raised g); unfold raise, yield; cbn [cache_file calls events].
  - by rewrite app_nil_r.
  - by rewrite <- app_assoc.
Qed.

Lemma forallb_tokens toks :
  forallb (fun e => negb (terminal e)) (List.map Token toks) = true.
Proof. by induction toks. Qed.

Lemma streams_direct W client query image_paths :
  streams (stream_direct_reasoning W client query image_paths).
Proof.
  intros s. unfold stream_direct_reasoning. rewrite stream_answer_run.
  eexists _, _, _. split; [reflexivity|]. split; [apply forallb_tokens|].
  cbn [events]. by destruct (raised _).
Qed.

Lemma streams_agentic W client query image_paths :
  streams (stream_agentic_search W client query image_paths).
Proof.
  intros s. unfold stream_agentic_search, bind.
  destruct (agentic_loop_events W client max_rounds
              (initial_history query image_paths) s)
    as (r & s' & toks & -> & _ & He).
  destruct r as [h|e]; eexists _, s', (List.map Token toks);
    (split; [reflexivity|]); (split; [apply forallb_tokens | exact He]).
Qed.

Lemma streams_naive_rag W client query image_paths :
  streams (stream_naive_rag W client query image_paths).
Proof.
  intros s. unfold stream_naive_rag.
  unfold bind at 1. unfold yield at 1.
  unfold bind at 1. unfold yield at 1.
  cbn [cache_file calls events].
  set (s0 := State _ _ _).
  unfold bind at 1.
  destruct (search_and_fetch_effect W query 5 s0)
    as (pages & cf & extra & -> & _ & _).
  unfold bind at 1.
  destruct (summarize_pages_effect W pages default_summary_model
              (State cf (calls s0 ++ extra) (events s0)))
    as (r & extra' & -> & _).
  destruct r as [summary|e].
  - unfold bind at 1. unfold yield at 1. cbn [cache_file calls events].
    rewrite stream_answer_run. cbn [events].
    set (g := stream_generate _ _ _ _ _).
    eexists _, _,
      ([Status (lit "search") (lit "正在搜索相关资料...");
        Token ([10%N] ++ lit "<search>" ++ query ++ lit "</search>" ++ [10%N]);
        Token ([10%N] ++ result_span summary ++ [10%N])]
         ++ List.map Token (yielded g)).
    split; [reflexivity|]. split.
    + rewrite forallb_app, forallb_tokens. done.
    + subst s0. cbn [events]. destruct (raised g); by rewrite <- !app_assoc.
  - eexists _, _,
      [Status (lit "search") (lit "正在搜索相关资料...");
       Token ([10%N] ++ lit "<search>" ++ query ++ lit "</search>" ++ [10%N])].
    split; [reflexivity|]. split; [done|].
    subst s0. cbn [events]. by rewrite <- !app_assoc.
Qed.

Lemma sse_well_terminated m s :
  streams m ->
  exists s' new,
    sse m s = (Ok tt, s') /\ events s' = events s ++ new /\
    well_terminated new.
Proof.
  intros Hm. destruct (Hm s) as (r & s' & body & E & Hb & He).
  rewrite sse_run, E. destruct r as [[]|e].
  - exists s', (body ++ [Done]). split; [done|]. split; [done|].
    by exists body, Done.
  - exists (emit (Error e) s'), (body ++ [Error e]). split; [done|]. split.
    + cbn [events emit]. rewrite He, app_nil_r. by rewrite <- app_assoc.
    + by exists body, (Error e).
Qed.

(** Every stream that [/infer] hands back is well terminated, whatever
    the collaborators do: running it never raises, and the events it
    emits end in exactly one terminal event, done or error, with no
    terminal event before it. *)
Theorem infer_stream_well_terminated (W : World)
    (clients : gmap str ModelClient) (query model mode : str)
    (files : list str) (body : M unit) (s : state) :
  infer W clients query model mode files = StreamingResponse body ->
  exists s' new,
    body s = (Ok tt, s') /\ events s' = events s ++ new /\
    well_terminated new.
Proof.
  unfold infer. destruct (negb _); [done|].
  destruct (clients !! model) as [client|]; [|done].
  destruct (save_uploads W files) as [image_paths|e]; [|done].
  repeat case_bool_decide; intros [= <-]; apply sse_well_terminated.
  - apply streams_direct.
  - apply streams_agentic.
  - apply streams_naive_rag.
Qed.

Lemma infer_stream_well_terminated_witness :
  exists body s' new,
    infer overloaded clients question (lit "qwen") (lit "naive_rag") []
    = StreamingResponse body /\
    body start = (Ok tt, s') /\ events s' = new /\ well_terminated new /\
    last new = Some (Error (lit "vLLM request failed: 503, busy")).
Proof.
  eexists. 
  assert (E : infer overloaded clients question (lit "qwen") (lit "naive_rag") []
              = StreamingResponse
                  (sse (stream_naive_rag overloaded client question [])))
    by (vm_compute; reflexivity).
  destruct (infer_stream_well_terminated overloaded clients question
              (lit "qwen") (lit "naive_rag") [] _ start E)
    as (s' & new & Eb & He & Hw).
  exists s', new. split; [exact E|]. split; [exact Eb|].
  split; [exact He|]. split; [exact Hw|].
  vm_compute in Eb. injection Eb as <-. cbn [events] in He.
  rewrite app_nil_l in He. rewrite <- He. vm_compute; reflexivity.
Defined.

Lemma save_uploads_spec (W : World) (files : list str) :
  match save_uploads W files with
  | Ok image_paths =>
      uploads_saved W files /\
      image_paths = List.map (fun filename => lit "/tmp/" ++ filename)
                             (List.filter truthy files)
  | Raise e => ~ uploads_saved W files
  end.
Proof.
  unfold uploads_saved.
  induction files as [|filename rest IH]; [by split|].
  cbn [save_uploads List.filter].
  destruct filename as [|c r] eqn:Ef.
  - cbn [truthy negb]. destruct (save_uploads W rest) as [paths|e].
    + destruct IH as [IH ->]. split; [|done]. by constructor.
    + intros H. apply IH. by inversion H.
  - rewrite <- Ef. assert (Ht : truthy filename = true) by by subst.
    rewrite Ht. cbn [negb].
    destruct (save_upload W (lit "/tmp/" ++ filename)) as [[]|e] eqn:Es.
    + destruct (save_uploads W rest) as [paths|e].
      * destruct IH as [IH ->]. split; [|done]. by constructor.
      * intros H. apply IH. by inversion H.
    + intros H. inversion H as [|? ? Hf _]; subst.
      rewrite Hf in Es; done.
Qed.

Lemma posted_spec (query model mode : str) :
  truthy query && truthy model && truthy mode = true <->
  posted query model mode.
Proof.
  unfold posted. destruct query, model, mode; cbn; split; try done.
  all: by intros (? & ? & ?).
Qed.

(** [/infer] answers 400, and with no other status in a JSON error, in
    two cases only, both on a form that has its three fields: the model
    is not configured; or it is, every named upload was written under
    [/tmp], and the mode is none of the three workflows.  A form without
    one of the fields is answered 422 before the handler runs, and an
    upload that cannot be written ends a request for a configured model
    with the exception leaving the handler, whatever the mode. *)
Theorem infer_rejects (W : World) (clients : gmap str ModelClient)
    (query model mode : str) (files : list str) :
  (posted query model mode -> clients !! model = None ->
   infer W clients query model mode files
   = JsonError 400 (lit "Unknown model: " ++ model)) /\
  (posted query model mode -> is_Some (clients !! model) ->
   uploads_saved W files -> unknown_mode mode ->
   infer W clients query model mode files
   = JsonError 400 (lit "Unknown mode: " ++ mode)) /\
  (forall status_code error,
     infer W clients query model mode files = JsonError status_code error ->
     status_code = 400%N /\ posted query model mode /\
     (clients !! model = None \/
      (uploads_saved W files /\ unknown_mode mode))) /\
  (~ posted query model mode ->
   infer W clients query model mode files = ValidationError) /\
  (posted query model mode -> is_Some (clients !! model) ->
   ~ uploads_saved W files ->
   exists e, infer W clients query model mode files = InternalServerError e).
Proof.
  pose proof (posted_spec query model mode) as Hp.
  pose proof (save_uploads_spec W files) as Hs.
  unfold infer, unknown_mode.
  destruct (truthy query && truthy model && truthy mode); cbn [negb].
  2:{ repeat split; try done.
      all: intros H; apply Hp in H; done. }
  assert (Hpost : posted query model mode) by by apply Hp.
  destruct (clients !! model) as [client|] eqn:Ec.
  2:{ split; [done|]. split; [by intros _ [? ?]|]. split.
      - intros ? ? [= <- <-]. split; [done|]. split; [done | by left].
      - split; [done | by intros _ [? ?]]. }
  split; [done|].
  destruct (save_uploads W files) as [image_paths|e].
  - destruct Hs as [Hs _]. split.
    + intros _ _ _ (H1 & H2 & H3).
      by rewrite !bool_decide_eq_false_2.
    + split; [|split; [done | done]].
      intros status_code error.
      repeat case_bool_decide; intros [= <- <-].
      split; [done|]. split; [done|]. right. done.
  - split; [done|]. split; [done|]. split; [done|]. intros _ _ _. by eexists.
Qed.

Lemma infer_rejects_witness :
  infer answering clients question (lit "qwen") (lit "agentic")
        [lit "cat.png"; []]
  = JsonError 400 (lit "Unknown mode: agentic") /\
  infer answering clients question (lit "gpt") (lit "naive_rag") []
  = JsonError 400 (lit "Unknown model: gpt") /\
  infer answering clients question (lit "qwen") [] [] = ValidationError /\
  exists e,
    infer answering clients question (lit "qwen") (lit "agentic")
          [lit "x/y.png"]
    = InternalServerError e.
Proof.
  split; [|split; [|split]].
  - destruct (infer_rejects answering clients question (lit "qwen")
                (lit "agentic") [lit "cat.png"; []]) as (_ & H & _).
    rewrite H; [vm_compute; reflexivity | | | | ].
    + repeat split; vm_compute; discriminate.
    + vm_compute. by eexists.
    + constructor; [intros _; vm_compute; reflexivity|].
      constructor; [done | constructor].
    + repeat split; vm_compute; discriminate.
  - destruct (infer_rejects answering clients question (lit "gpt")
                (lit "naive_rag") []) as (H & _).
    rewrite H; [vm_compute; reflexivity | | vm_compute; reflexivity].
    repeat split; vm_compute; discriminate.
  - destruct (infer_rejects answering clients question (lit "qwen") [] [])
      as (_ & _ & _ & H & _).
    apply H. intros (_ & _ & Hm). done.
  - destruct (infer_rejects answering clients question (lit "qwen")
                (lit "agentic") [lit "x/y.png"]) as (_ & _ & _ & _ & H).
    apply H.
    + repeat split; vm_compute; discriminate.
    + vm_compute. by eexists.
    + intros Hs. inversion Hs as [|? ? Hf _]; subst.
      assert (Hne : lit "x/y.png" <> []) by (vm_compute; discriminate).
      specialize (Hf Hne). vm_compute in Hf. discriminate.
Defined.

(** [/stop] never adds or removes a task: the registry keeps its task
    ids, other tasks keep their events, a registered task gets its
    event set and the answer [stopping], and an unknown id gets
    [not_found] and changes nothing. *)
Theorem stop_registry (task_id : str) (active_tasks : gmap str bool) :
  dom (snd (stop task_id active_tasks)) = dom active_tasks /\
  (forall other, other <> task_id ->
     snd (stop task_id active_tasks) !! other = active_tasks !! other) /\
  (is_Some (active_tasks !! task_id) ->
   stop task_id active_tasks
   = (StopResponse Stopping task_id, <[task_id := true]> active_tasks)) /\
  (active_tasks !! task_id = None ->
   stop task_id active_tasks
   = (StopResponse NotFound task_id, active_tasks)).
Proof.
  unfold stop. destruct (active_tasks !! task_id) as [ev|] eqn:E; cbn [snd].
  - split; [|split; [|split]].
    + apply dom_insert_lookup_L. by eexists.
    + intros other Hne. by rewrite lookup_insert_ne.
    + done.
    + done.
  - split; [done|]. split; [done|]. split; [by intros [? ?] | done].
Qed.

Lemma stop_registry_witness :
  stop (lit "task-1") {[ lit "task-1" := false; lit "task-2" := false ]}
  = (StopResponse Stopping (lit "task-1"),
     {[ lit "task-1" := true; lit "task-2" := false ]}).
Proof.
  destruct (stop_registry (lit "task-1")
              {[ lit "task-1" := false; lit "task-2" := false ]})
    as (_ & _ & H & _).
  rewrite H; [vm_compute; reflexivity | by vm_compute; eexists].
Defined.

(** ** What the loop sends out *)

Lemma model_histories_app l1 l2 :
  model_histories (l1 ++ l2) = model_histories l1 ++ model_histories l2.
Proof.
  induction l1 as [|c l1 IH]; [done|]. destruct c; cbn; by rewrite ?IH.
Qed.

Lemma quiet_calls l : model_calls l = 0%nat -> model_histories l = [].
Proof.
  induction l as [|c l IH]; [done|]. destruct c; cbn; [done|exact IH..].
Qed.

Lemma serper_queries_app l1 l2 :
  serper_queries (l1 ++ l2) = serper_queries l1 ++ serper_queries l2.
Proof.
  induction l1 as [|c l1 IH]; [done|]. destruct c; cbn; by rewrite ?IH.
Qed.

Lemma jina_calls_quiet urls :
  model_histories (List.map CallJina urls) = [] /\
  serper_queries (List.map CallJina urls) = [].
Proof. by induction urls. Qed.

Lemma extends_refl h : extends h h.
Proof. exists [], 0%nat. by rewrite app_nil_r. Qed.

Lemma extends_round h output summary hi :
  extends (h ++ [assistant output; assistant (result_span summary)]) hi ->
  extends h hi.
Proof.
  intros (added & k & -> & Ha & Hl).
  exists ([assistant output; assistant (result_span summary)] ++ added), (S k).
  split; [by rewrite <- app_assoc|]. split.
  - repeat constructor; [by eexists..|done].
  - cbn [app length]. lia.
Qed.

Lemma wants_search_searchable output :
  wants_search output = true ->
  searchable (default [] (extract_search_query output)).
Proof.
  unfold wants_search. destruct (extract_search_query output) as [q|] eqn:E;
    [|done].
  cbn [default]. intros Hq. split; [by destruct q|].
  destruct (extract_some_last_span _ _ E) as (o & c & _ & ->).
  apply strip_trimmed.
Qed.

(** The calls of one pass through the loop body: the model call, and
    after it at most one provider query, which is the extracted one. *)
Lemma agentic_round_calls W client h s :
  let output :=
    concat (yielded (stream_generate W client h loop_stop true)) in
  exists r s' extra,
    agentic_round W client h s = (r, s') /\
    calls s' = calls s ++ CallModel h :: extra /\
    model_histories extra = [] /\
    (serper_queries extra = [] \/
     (wants_search output = true /\
      serper_queries extra = [default [] (extract_search_query output)])) /\
    match r with
    | Ok (Returned h') => h' = h
    | Ok (Continue h') =>
        exists summary,
          h' = h ++ [assistant output; assistant (result_span summary)]
    | Raise _ => True
    end.
Proof.
  intros output. rewrite agentic_round_run. fold output.
  set (s1 := after_tokens h _ s).
  assert (Hs1 : calls s1 = calls s ++ [CallModel h]) by done.
  destruct (raised _) as [e|].
  { eexists _, _, []. split; [reflexivity|]. rewrite Hs1.
    split; [done|]. split; [done|]. split; [by left | done]. }
  destruct (wants_search output) eqn:Ew.
  2:{ eexists _, _, []. split; [reflexivity|]. cbn [calls emit]. rewrite Hs1.
      split; [done|]. split; [done|]. split; [by left | done]. }
  set (q := default [] (extract_search_query output)).
  rewrite search_and_fetch_run.
  destruct (cache_hit s1 q 5).
  - rewrite summarize_pages_run. destruct (forallb unusable _).
    + eexists _, _, []. split; [reflexivity|]. cbn [calls emit]. rewrite Hs1.
      split; [done|]. split; [done|]. split; [by left | by eexists].
    + destruct (deepseek_create W _ _) as [summary|e].
      * eexists _, _, [CallDeepseek _ _]. split; [reflexivity|].
        cbn [calls emit]. rewrite Hs1, <- app_assoc.
        split; [done|]. split; [done|]. split; [by left | by eexists].
      * eexists _, _, [CallDeepseek _ _]. split; [reflexivity|].
        cbn [calls]. rewrite Hs1, <- app_assoc.
        split; [done|]. split; [done|]. split; [by left | done].
  - rewrite summarize_pages_run.
    destruct (jina_calls_quiet (fetched_urls (provider_hits W q 5)))
      as [Hj1 Hj2].
    destruct (forallb unusable _).
    + eexists _, _, (CallSerper q :: List.map CallJina _).
      split; [reflexivity|]. cbn [calls emit]. rewrite Hs1, <- app_assoc.
      split; [done|]. cbn [model_histories serper_queries].
      rewrite Hj1, Hj2. split; [done|]. split; [by right | by eexists].
    + destruct (deepseek_create W _ _) as [summary|e].
      * eexists _, _, (CallSerper q :: List.map CallJina _
                         ++ [CallDeepseek _ _]).
        split; [reflexivity|]. cbn [calls emit].
        rewrite Hs1, <- !app_assoc. split; [done|].
        cbn [model_histories serper_queries].
        rewrite model_histories_app, serper_queries_app, Hj1, Hj2.
        split; [done|]. split; [by right | by eexists].
      * eexists _, _, (CallSerper q :: List.map CallJina _
                         ++ [CallDeepseek _ _]).
        split; [reflexivity|]. cbn [calls].
        rewrite Hs1, <- !app_assoc. split; [done|].
        cbn [model_histories serper_queries].
        rewrite model_histories_app, serper_queries_app, Hj1, Hj2.
        split; [done|]. split; [by right | done].
Qed.

Lemma agentic_loop_log W client n h s :
  exists r s' new,
    agentic_loop W client n h s = (r, s') /\
    calls s' = calls s ++ new /\
    Forall (extends h) (model_histories new) /\
    Forall searchable (serper_queries new) /\
    (length (serper_queries new) <= n)%nat /\
    match r with Ok hf => extends h hf | Raise _ => True end.
Proof.
  revert h s. induction n as [|n IH]; intros h s.
  - eexists _, _, []. split; [reflexivity|]. cbn [calls emit].
    rewrite app_nil_r. repeat split; try done. apply extends_refl.
  - cbn [agentic_loop]. unfold bind at 1.
    destruct (agentic_round_calls W client h s)
      as (r & s1 & extra & -> & Hc & Hm & Hq & Hr).
    assert (Hsq : Forall searchable (serper_queries extra) /\
                  (length (serper_queries extra) <= 1)%nat).
    { destruct Hq as [->|[Hw ->]]; [split; [constructor | simpl; lia]|].
      split; [|simpl; lia].
      constructor; [by apply wants_search_searchable | constructor]. }
    destruct Hsq as [Hsq Hlen].
    destruct r as [[h'|h']|e].
    + subst h'. eexists _, _, (CallModel h :: extra).
      split; [reflexivity|]. split; [done|].
      cbn [model_histories serper_queries]. rewrite Hm.
      split; [constructor; [apply extends_refl | constructor]|].
      split; [done|]. split; [lia | apply extends_refl].
    + destruct Hr as [summary Hh'].
      destruct (IH h' s1) as (r & s' & new & -> & Hc' & Hh & Hs & Hl & Hf).
      rewrite Hh' in Hh, Hf.
      eexists r, s', (CallModel h :: extra ++ new).
      split; [reflexivity|]. split.
      { rewrite Hc', Hc. by rewrite <- app_assoc. }
      cbn [model_histories serper_queries].
      rewrite model_histories_app, serper_queries_app, Hm. cbn [app].
      split; [|split; [|split]].
      * constructor; [apply extends_refl|].
        eapply Forall_impl; [exact Hh|]. intros hi. apply extends_round.
      * by apply Forall_app.
      * rewrite length_app. lia.
      * destruct r as [hf|e]; [|done]. by eapply extends_round.
    + eexists _, _, (CallModel h :: extra). split; [reflexivity|].
      split; [done|]. cbn [model_histories serper_queries]. rewrite Hm.
      split; [constructor; [apply extends_refl | constructor]|].
      split; [done|]. split; [lia | done].
Qed.

Lemma agentic_loop_chain W client n h s :
  exists r s' new,
    agentic_loop W client n h s = (r, s') /\
    calls s' = calls s ++ new /\
    (length (model_histories new) <= n)%nat /\
    match model_histories new with
    | [] => n = 0%nat
    | h0 :: later => h0 = h /\ round_chain W client h later
    end.
Proof.
  revert h s. induction n as [|n IH]; intros h s.
  - eexists _, _, []. split; [reflexivity|]. cbn [calls emit].
    rewrite app_nil_r. done.
  - cbn [agentic_loop]. unfold bind at 1.
    destruct (agentic_round_cases W client h s)
      as [(e & extra & cf & -> & Hm)
         |[(Hr & Hw & ->)|(summary & extra & cf & Hr & Hw & -> & Hm)]].
    + eexists _, _, (CallModel h :: extra). split; [reflexivity|].
      cbn [calls after_tokens]. rewrite <- app_assoc. split; [done|].
      cbn [model_histories]. rewrite (quiet_calls _ Hm).
      cbn [length]. split; [lia | done].
    + eexists _, _, [CallModel h]. split; [reflexivity|].
      cbn [calls emit after_tokens]. split; [done|].
      cbn [model_histories length]. split; [lia | done].
    + match goal with |- context [agentic_loop W client n ?h' ?s2] =>
        destruct (IH h' s2) as (r & s' & new & -> & Hc & Hl & Hh)
      end.
      eexists r, s', (CallModel h :: extra ++ new).
      split; [reflexivity|]. split.
      { rewrite Hc. cbn [calls emit after_tokens].
        by rewrite <- !app_assoc. }
      cbn [model_histories]. rewrite model_histories_app, (quiet_calls _ Hm).
      cbn [app length]. split; [lia|]. split; [done|].
      destruct (model_histories new) as [|h0 later]; [done|].
      destruct Hh as [-> Hch]. cbn [round_chain].
      split; [done|]. split; [done|]. split; [by eexists | done].
Qed.

(** Every generation call of the agentic search but the first is made
    with the history of the call before it followed by exactly two
    assistant messages: the answer the model gave to that call, which
    asked for a search, and the search-result span.  The first call is
    made with the opening user message alone, and there are at most 20
    calls. *)
Theorem agentic_histories_extend (W : World) (client : ModelClient)
    (query : str) (image_paths : list str) (s : state) :
  exists r s' new later,
    stream_agentic_search W client query image_paths s = (r, s') /\
    calls s' = calls s ++ new /\
    model_histories new = initial_history query image_paths :: later /\
    round_chain W client (initial_history query image_paths) later /\
    (length later < 20)%nat.
Proof.
  unfold stream_agentic_search, bind.
  destruct (agentic_loop_chain W client max_rounds
              (initial_history query image_paths) s)
    as (r & s' & new & -> & Hc & Hl & Hh).
  destruct (model_histories new) as [|h0 later] eqn:E; [done|].
  destruct Hh as [-> Hch]. cbn [length] in Hl. unfold max_rounds in Hl.
  destruct r; eexists _, s', new, later; (split; [reflexivity|]);
    (split; [done|]); (split; [done|]); (split; [done | lia]).
Qed.

(** The agentic search never sends an empty query to the provider, nor
    one with whitespace at either end, and it sends at most one query
    per round: at most 20. *)
Theorem agentic_queries_searchable (W : World) (client : ModelClient)
    (query : str) (image_paths : list str) (s : state) :
  exists r s' new,
    stream_agentic_search W client query image_paths s = (r, s') /\
    calls s' = calls s ++ new /\
    Forall searchable (serper_queries new) /\
    (length (serper_queries new) <= 20)%nat.
Proof.
  unfold stream_agentic_search, bind.
  destruct (agentic_loop_log W client max_rounds
              (initial_history query image_paths) s)
    as (r & s' & new & -> & Hc & _ & Hs & Hl & _).
  destruct r; by eexists _, s', new.
Qed.

(** The history the loop ends with is the history it started from
    followed by assistant text messages only, an even number of them. *)
Theorem agentic_loop_history (W : World) (client : ModelClient)
    (n : nat) (h hf : list message) (s s' : state) :
  agentic_loop W client n h s = (Ok hf, s') -> extends h hf.
Proof.
  intros E. destruct (agentic_loop_log W client n h s)
    as (r & s1 & new & E' & _ & _ & _ & _ & Hf).
  rewrite E in E'. injection E' as <- <-. exact Hf.
Qed.

Lemma agentic_loop_history_witness :
  exists hf s',
    agentic_loop searching client 3 first_history start = (Ok hf, s') /\
    extends first_history hf /\ length hf = 7%nat.
Proof.
  destruct (agentic_loop searching client 3 first_history start)
    as [[hf|e] s'] eqn:E; [|vm_compute in E; discriminate].
  exists hf, s'. split; [reflexivity|].
  split; [exact (agentic_loop_history _ _ _ _ _ _ _ E)|].
  vm_compute in E. injection E as <- _. reflexivity.
Defined.

(** ** The one-shot retrieval workflow *)



